(** * Titanoboa: module registry, discovery, dispatch and the shared channel

    A shallow embedding of [src/main.py].  The main thread of the program
    (the [Framework] methods, [titanoboa] and [main]) is embedded in a small
    state-and-exception monad over a machine that records the filesystem,
    the state that unit entry points act on, and the trace of observable
    events (log records, thread starts, entry-point calls).  The two worker
    threads ([Server.run_server] and [Client.run_client]) are embedded as
    step functions over the shared FIFO queue, at the granularity of one
    queue operation per step, together with their interleaving. *)

From Stdlib Require Import Ascii.
From stdpp Require Import base tactics option list strings sorting pretty relations.

Set Default Proof Using "Type".

(** ** Python strings

    File names and module names are byte strings.  Python compares [str]
    values by code point, which on UTF-8 encoded text is the bytewise
    lexicographic order [String.le]. *)

Module Str.

(** [s.endswith(suffix)] *)
Definition endswith (s suffix : string) : bool :=
  bool_decide (String.length suffix ≤ String.length s) &&
  bool_decide (String.substring (String.length s - String.length suffix)
                                (String.length suffix) s = suffix).

(** [pat in s]: [pat] occurs as a contiguous substring of [s]. *)
Fixpoint contains (pat s : string) : bool :=
  String.prefix pat s ||
  match s with
  | EmptyString => false
  | String _ s' => contains pat s'
  end.

(** [s[:-n]]: [s] without its last [n] characters (empty when [s] has
    fewer than [n]). *)
Definition drop_last (n : nat) (s : string) : string :=
  String.substring 0 (String.length s - n) s.

End Str.

(** ** Observable events *)

Inductive Level := INFO | ERROR.

Inductive Role := Server | Client.

Inductive Event :=
  | Log (lvl : Level) (msg : string)      (* [logging.info] / [logging.error] *)
  | ThreadStart (target : Role)           (* [threading.Thread(target=..).start()] *)
  | Call (name : string)                  (* [module.run(shared_libs, ..)] is entered *)
  | QPut (who : Role) (item : string)     (* [queue.put(item)] *)
  | QGet (who : Role) (item : string).    (* [queue.get()] returned [item] *)

Global Instance Level_eq_dec : EqDecision Level.
Proof. solve_decision. Defined.
Global Instance Role_eq_dec : EqDecision Role.
Proof. solve_decision. Defined.
Global Instance Event_eq_dec : EqDecision Event.
Proof. solve_decision. Defined.

(** ** Exceptions

    [except Exception] catches the first class only; [sys.exit] raises the
    second. *)

Inductive Exn :=
  | Exception (msg : string)
  | SystemExit (code : nat).

Inductive Res (A : Type) :=
  | Ok (a : A)
  | Raised (e : Exn).
Global Arguments Ok {A} a.
Global Arguments Raised {A} e.

(** ** The filesystem as discovery sees it *)

Inductive Node :=
  | Absent                          (* [os.path.exists] is false *)
  | Dir (entries : list string)     (* [os.listdir] returns [entries], in any order *)
  | NotDir.                         (* the path exists and [os.listdir] raises *)

Definition FS := string → Node.

(** ** The platform the program runs on

    The types of the values the program only passes around, and the
    library calls whose results it cannot compute itself. *)

Class Platform := {
  World : Type;      (* the state unit entry points read and write *)
  Args : Type;       (* the [*args, **kwargs] forwarded to an entry point *)
  no_args : Args;    (* a call that passes nothing more than the context *)
  Conn : Type;       (* an [sqlite3] connection *)
  Key : Type;        (* a Fernet key *)
}.

Section Model.
Context `{Platform}.

(** [SharedLibs]: the execution context handed to every unit.  The logger
    is the log of the machine below and the communication queue is the
    channel of the thread system; the optimizer has no state. *)
Record SharedLibs := {
  security_manager : Key;
  db_connection : Conn;
}.

(** A loaded Python module.  [run] is its [run] attribute, when it has
    one: called with the context and the arguments and awaited, it acts
    on the world and completes or raises. *)
Record Module := {
  module_name : string;     (* [__name__] *)
  run : option (SharedLibs → Args → World → World * Res ());
}.

(** [self.modules]: a [dict], which iterates in insertion order. *)
Definition Dict := list (string * Module).

(** [name in d] *)
Definition dict_contains (name : string) (d : Dict) : bool :=
  bool_decide (name ∈ d.*1).

(** [d[name]] *)
Fixpoint dict_get (name : string) (d : Dict) : option Module :=
  match d with
  | [] => None
  | (k, v) :: d' => if decide (k = name) then Some v else dict_get name d'
  end.

(** [d[name] = v]: replaces the value of a present key in place and
    appends an absent one. *)
Fixpoint dict_set (name : string) (v : Module) (d : Dict) : Dict :=
  match d with
  | [] => [(name, v)]
  | (k, v0) :: d' =>
      if decide (k = name) then (k, v) :: d' else (k, v0) :: dict_set name v d'
  end.

Record Framework := {
  shared_libs : SharedLibs;
  modules : Dict;
  module_types : list string;
}.

Definition set_modules (f : Dict → Dict) (self : Framework) : Framework :=
  {| shared_libs := shared_libs self;
     modules := f (modules self);
     module_types := module_types self |}.

(** The machine the main thread runs on. *)
Record Machine := {
  fs : FS;
  world : World;
  events : list Event;
}.

(** The library calls.  Their results are taken as given: connecting to
    the database and loading a module are answered by the installation,
    and loading a module does not touch the machine.  The generator of
    orchestrator files is taken whole, as the files it leaves and the
    records it logs: the properties below are about what happens after
    it. *)
Class Host := {
  (* [Fernet.generate_key()] *)
  generate_key : Key;
  (* [sqlite3.connect(path)]: a connection, or the message of the
     exception *)
  sqlite3_connect : string → Conn + string;
  (* [importlib.import_module(name)]: the module, or the message of the
     [Exception] it raises *)
  import_module : string → Module + string;
  (* [generate_orchestrators(base_dir)]: the files it writes and the
     records it logs; it handles its own failures *)
  generate_orchestrators : string → FS → FS * list (Level * string);
}.

(** *** The monad of the main thread *)

Definition M (A : Type) : Type := Machine → Machine * Res A.

Global Instance M_ret : MRet M := λ A a m, (m, Ok a).

Global Instance M_bind : MBind M := λ A B k c m,
  match c m with
  | (m', Ok a) => k a m'
  | (m', Raised e) => (m', Raised e)
  end.

Definition raise {A} (e : Exn) : M A := λ m, (m, Raised e).

(** [try: body / except Exception as e: handler(e)] *)
Definition try_except {A} (body : M A) (handler : string → M A) : M A :=
  λ m, match body m with
       | (m', Raised (Exception msg)) => handler msg m'
       | r => r
       end.

(** The machine after more events. *)
Definition log_more (evs : list Event) (m : Machine) : Machine :=
  {| fs := fs m; world := world m; events := events m ++ evs |}.

(** The machine after a call of the unit [name] that left the world [w]. *)
Definition after_call (name : string) (w : World) (m : Machine) : Machine :=
  {| fs := fs m; world := w; events := events m ++ [Call name] |}.

Definition emit (ev : Event) : M () := λ m, (log_more [ev] m, Ok ()).

Definition logging_info (msg : string) : M () := emit (Log INFO msg).
Definition logging_error (msg : string) : M () := emit (Log ERROR msg).

(** [for x in xs: body(x)], with the loop state [s] passed along. *)
Fixpoint for_each {A S} (xs : list A) (body : A → S → M S) (s : S) : M S :=
  match xs with
  | [] => mret s
  | x :: xs' => body x s ≫= for_each xs' body
  end.

Definition get_fs : M FS := λ m, (m, Ok (fs m)).

Context `{Host}.

(** *** [SharedLibs] *)

(** [SharedLibs.setup_database] *)
Definition setup_database : M Conn :=
  match sqlite3_connect "app.db" with
  | inl conn => logging_info "Database connected successfully.";; mret conn
  | inr e =>
      logging_error ("Error connecting to the database: " +:+ e);;
      raise (SystemExit 1)
  end.

(** [SharedLibs.__init__]; [setup_logger] logs one record, and
    [SecurityManager()] draws a fresh key. *)
Definition SharedLibs_init : M SharedLibs :=
  logging_info "Setting up logger...";;
  conn ← setup_database;
  mret {| security_manager := generate_key; db_connection := conn |}.

(** *** [Framework] *)

(** The framework [Framework.__init__] builds around [libs]. *)
Definition new_framework (libs : SharedLibs) : Framework :=
  {| shared_libs := libs;
     modules := [];
     module_types := ["models"; "controllers"; "services"; "utils"; "security"] |}.

(** [Framework.__init__] *)
Definition Framework_init (libs : SharedLibs) : M Framework :=
  logging_info "Framework initialized successfully.";;
  mret (new_framework libs).

(** [Framework.register_module] *)
Definition register_module (name : string) (module : Module)
    (self : Framework) : M Framework :=
  if dict_contains name (modules self) then
    logging_error ("Module " +:+ name +:+ " already exists!");;
    mret self
  else
    let self := set_modules (dict_set name module) self in
    logging_info ("Module " +:+ name +:+ " registered successfully.");;
    mret self.

(** [importlib.import_module(name)] *)
Definition importlib_import_module (name : string) : M Module :=
  match import_module name with
  | inl module => mret module
  | inr e => raise (Exception e)
  end.

(** The naming predicate of discovery:
    [file.endswith(".py") and 'orchestrate' in file]. *)
Definition is_orchestrator (file : string) : bool :=
  Str.endswith file ".py" && Str.contains "orchestrate" file.

(** [f"{module_type}.{file[:-3]}"] *)
Definition module_name_of (module_type file : string) : string :=
  module_type +:+ "." +:+ Str.drop_last 3 file.

(** The [try] statement of [auto_discover_and_register], for the module
    name of one candidate. *)
Definition load_module_named (module_name : string) (self : Framework)
    : M Framework :=
  try_except
    (module ← importlib_import_module module_name;
     register_module module_name module self)
    (λ e,
       logging_error ("Failed to load " +:+ module_name +:+ ": " +:+ e);;
       mret self).

(** The body of the inner loop of [auto_discover_and_register]. *)
Definition load_file (module_type file : string) (self : Framework) : M Framework :=
  if is_orchestrator file then
    load_module_named (module_name_of module_type file) self
  else mret self.

(** [sorted(l)] on strings. *)
Definition sorted (l : list string) : list string := merge_sort String.le l.

(** The body of the outer loop of [auto_discover_and_register]. *)
Definition scan_module_type (module_type : string) (self : Framework) : M Framework :=
  let dir_path := "./" +:+ module_type in
  files ← get_fs;
  match files dir_path with
  | Absent => mret self
  | Dir entries => for_each (sorted entries) (load_file module_type) self
  | NotDir => raise (Exception ("[Errno 20] Not a directory: '" +:+ dir_path +:+ "'"))
  end.

(** [Framework.auto_discover_and_register] *)
Definition auto_discover_and_register (self : Framework) : M Framework :=
  for_each (module_types self) scan_module_type self.

(** The effect of an entry point on the world. *)
Definition call_entry (entry : World → World * Res ()) : M () :=
  λ m, let '(w, r) := entry (world m) in
       ({| fs := fs m; world := w; events := events m |}, r).

(** [Framework.run_module], awaited to completion. *)
Definition run_module (self : Framework) (name : string) (args : Args) : M () :=
  if negb (dict_contains name (modules self)) then
    logging_error ("Module " +:+ name +:+ " not found!")
  else
    match dict_get name (modules self) with
    | None => raise (Exception ("KeyError: " +:+ name))
    | Some module =>
        match run module with
        | None =>
            raise (Exception ("module '" +:+ module_name module +:+
                              "' has no attribute 'run'"))
        | Some entry =>
            emit (Call name);;
            call_entry (entry (shared_libs self) args)
        end
    end.

(** [for module in names: asyncio.run(app.run_module(module))] *)
Definition run_names (app : Framework) (names : list string) : M () :=
  for_each names (λ module _, run_module app module no_args) ().

(** The loop that ends [titanoboa]:
    [for module in app.modules: asyncio.run(app.run_module(module))] *)
Definition run_all (app : Framework) : M () :=
  run_names app (modules app).*1.

(** *** Threads and the command line *)

(** [Server.start] and [Client.start] *)
Definition Server_start : M () :=
  logging_info "Starting server...";; emit (ThreadStart Server).
Definition Client_start : M () :=
  logging_info "Starting client...";; emit (ThreadStart Client).

(** The call of [generate_orchestrators]. *)
Definition run_generate_orchestrators (base_dir : string) : M () :=
  λ m, let '(files, logged) := generate_orchestrators base_dir (fs m) in
       ({| fs := files; world := world m;
           events := events m ++ (uncurry Log <$> logged) |}, Ok ()).

(** [titanoboa(project_name)] *)
Definition titanoboa (project_name : string) : M () :=
  logging_info ("Initializing project: " +:+ project_name);;
  run_generate_orchestrators "./";;
  libs ← SharedLibs_init;
  app ← Framework_init libs;
  app ← auto_discover_and_register app;
  Server_start;;
  Client_start;;
  run_all app.

(** [main], on the parsed arguments [command] and [project_name]. *)
Definition main (command project_name : string) : M () :=
  if decide (command = "init") then titanoboa project_name
  else logging_error "Unknown command".

End Model.

(** ** The vocabulary of the properties

    Nothing below is program text: these are the words in which the
    properties of the program are stated. *)

Section Vocabulary.
Context `{Host}.

(** A sequence of [register_module] calls. *)
Definition register_all (calls : list (string * Module)) (self : Framework)
    : M Framework :=
  for_each calls (λ '(name, module), register_module name module) self.

(** The records by which the framework reports a registration, a
    rejected duplicate, an unknown name and a failed load. *)
Definition registered_report (name : string) : Event :=
  Log INFO ("Module " +:+ name +:+ " registered successfully.").
Definition duplicate_report (name : string) : Event :=
  Log ERROR ("Module " +:+ name +:+ " already exists!").
Definition not_found_report (name : string) : Event :=
  Log ERROR ("Module " +:+ name +:+ " not found!").
Definition load_failure_report (name e : string) : Event :=
  Log ERROR ("Failed to load " +:+ name +:+ ": " +:+ e).

Definition is_error (ev : Event) : bool :=
  match ev with Log ERROR _ => true | _ => false end.

(** How often the acceptance of [name] was logged. *)
Definition accepted_count (name : string) (logged : list Event) : nat :=
  length (filter (λ ev, ev = registered_report name) logged).

(** The module names discovery tries to load, in the order it tries
    them: for each module type whose directory can be listed, the
    candidate files in sorted order. *)
Definition candidates (files : FS) (types : list string) : list string :=
  module_type ← types;
  match files ("./" +:+ module_type) with
  | Dir entries =>
      module_name_of module_type <$> filter is_orchestrator (sorted entries)
  | _ => []
  end.



(** Whether a candidate can be loaded, and what loading it yields. *)
Definition resolves (name : string) : bool :=
  match import_module name with inl _ => true | inr _ => false end.
Definition resolved (name : string) : option (string * Module) :=
  match import_module name with inl module => Some (name, module) | inr _ => None end.

(** The record discovery logs for a candidate that is not yet
    registered. *)
Definition discovery_report (name : string) : Event :=
  match import_module name with
  | inl _ => registered_report name
  | inr e => load_failure_report name e
  end.

(** A module type with no dot in it. *)
Definition dot_free (module_type : string) : bool :=
  negb (Str.contains "." module_type).

End Vocabulary.

(** ** The shared channel and the two threads

    [queue.Queue()] is an unbounded FIFO queue whose operations are atomic:
    [put] appends and never blocks, [get] removes the oldest entry and
    blocks while there is none, [empty] tests for emptiness.  A thread is a
    step function from its program point and the queue to its next program
    point, the queue it leaves and the events of the step; [None] means the
    thread cannot move now. *)

Definition Channel := list string.

Definition queue_put (item : string) (q : Channel) : Channel := q ++ [item].

Definition queue_get (q : Channel) : option (string * Channel) :=
  match q with
  | [] => None
  | item :: q' => Some (item, q')
  end.

Definition queue_empty (q : Channel) : bool :=
  match q with
  | [] => true
  | _ :: _ => false
  end.

(** *** [Server.run_server] *)

Inductive ServerPc :=
  | SvPoll                    (* at [if not self.queue.empty()] *)
  | SvGet                     (* at [data = self.queue.get()] *)
  | SvPut (data : string).    (* at [self.queue.put(f"Server acknowledged: {data}")] *)

Definition acknowledgment (data : string) : string :=
  "Server acknowledged: " +:+ data.

Definition server_step (pc : ServerPc) (q : Channel)
    : option (ServerPc * Channel * list Event) :=
  match pc with
  | SvPoll =>
      if negb (queue_empty q) then Some (SvGet, q, []) else Some (SvPoll, q, [])
  | SvGet =>
      match queue_get q with
      | None => None
      | Some (data, q') =>
          Some (SvPut data, q',
                [QGet Server data; Log INFO ("Server received: " +:+ data)])
      end
  | SvPut data =>
      let reply := acknowledgment data in
      Some (SvPoll, queue_put reply q, [QPut Server reply])
  end.

(** *** [Client.run_client] *)

Definition message_count : nat := 5.

Inductive ClientPc :=
  | ClSend (i : nat)     (* at [self.queue.put(message)] of iteration [i] *)
  | ClWait (i : nat)     (* at [threading.Event().wait(1)] *)
  | ClPoll (i : nat)     (* at [if not self.queue.empty()] *)
  | ClGet (i : nat)      (* at [response = self.queue.get()] *)
  | ClDone.              (* [range(5)] is exhausted *)

(** The head of [for i in range(5)], entered with the next index. *)
Definition client_loop (i : nat) : ClientPc :=
  if decide (i < message_count) then ClSend i else ClDone.

Definition client_message (i : nat) : string := "Client message " +:+ pretty i.

Definition client_step (pc : ClientPc) (q : Channel)
    : option (ClientPc * Channel * list Event) :=
  match pc with
  | ClSend i =>
      let message := client_message i in
      Some (ClWait i, queue_put message q,
            [Log INFO ("Client sending: " +:+ message); QPut Client message])
  | ClWait i => Some (ClPoll i, q, [])
  | ClPoll i =>
      if negb (queue_empty q) then Some (ClGet i, q, [])
      else Some (client_loop (S i), q, [])
  | ClGet i =>
      match queue_get q with
      | None => None
      | Some (response, q') =>
          Some (client_loop (S i), q',
                [QGet Client response; Log INFO ("Client received: " +:+ response)])
      end
  | ClDone => None
  end.

(** *** The two threads on one queue *)

Record Sys := {
  queue : Channel;
  server : ServerPc;
  client : ClientPc;
  trace : list Event;
}.

(** Both threads started on the empty queue made by [SharedLibs()]. *)
Definition sys_init : Sys :=
  {| queue := []; server := SvPoll; client := client_loop 0; trace := [] |}.

(** One step of the thread [who], if it can move. *)
Definition sys_step (who : Role) (s : Sys) : option Sys :=
  match who with
  | Server =>
      '(pc, q, evs) ← server_step (server s) (queue s);
      Some {| queue := q; server := pc; client := client s; trace := trace s ++ evs |}
  | Client =>
      '(pc, q, evs) ← client_step (client s) (queue s);
      Some {| queue := q; server := server s; client := pc; trace := trace s ++ evs |}
  end.

(** Any interleaving of the two threads. *)
Inductive step : Sys → Sys → Prop :=
  | step_thread who s s' : sys_step who s = Some s' → step s s'.

Definition reachable (s : Sys) : Prop := rtc step sys_init s.

(** Run a schedule; a thread scheduled while it cannot move is skipped. *)
Fixpoint sys_run (schedule : list Role) (s : Sys) : Sys :=
  match schedule with
  | [] => s
  | who :: schedule' => sys_run schedule' (default s (sys_step who s))
  end.

(** *** The loop bodies run without interruption *)

(** One pass through the body of [while True] in [run_server]. *)
Definition server_iteration (q : Channel) : Channel * list Event :=
  if negb (queue_empty q) then
    match queue_get q with
    | Some (data, q') =>
        let reply := acknowledgment data in
        (queue_put reply q',
         [QGet Server data; Log INFO ("Server received: " +:+ data);
          QPut Server reply])
    | None => (q, [])
    end
  else (q, []).

(** [fuel] passes through the body of [while True]. *)
Fixpoint run_server (fuel : nat) (q : Channel) : Channel * list Event :=
  match fuel with
  | 0 => (q, [])
  | S fuel' =>
      let '(q1, evs1) := server_iteration q in
      let '(q2, evs2) := run_server fuel' q1 in
      (q2, evs1 ++ evs2)
  end.

(** One pass through the body of the [for] loop in [run_client]; [wait] is
    what the other users of the queue do to it while the client waits. *)
Definition client_iteration (wait : Channel → Channel) (i : nat) (q : Channel)
    : Channel * list Event :=
  let message := client_message i in
  let sent := [Log INFO ("Client sending: " +:+ message); QPut Client message] in
  let q := wait (queue_put message q) in
  if negb (queue_empty q) then
    match queue_get q with
    | Some (response, q') =>
        (q', sent ++ [QGet Client response;
                      Log INFO ("Client received: " +:+ response)])
    | None => (q, sent)
    end
  else (q, sent).

(** [run_client]: the iterations for [i] in [range(5)], in order. *)
Definition run_client (wait : nat → Channel → Channel) (q : Channel)
    : Channel * list Event :=
  foldl (λ '(q, evs) i,
           let '(q', evs') := client_iteration (wait i) i q in (q', evs ++ evs'))
        (q, []) (seq 0 message_count).

(** *** What a trace says about the queue *)

(** The entries [who] took from the queue and the entries it put there, in
    order. *)
Definition got_by (who : Role) (evs : list Event) : list string :=
  omap (λ ev, match ev with
              | QGet r item => if decide (r = who) then Some item else None
              | _ => None
              end) evs.

Definition put_by (who : Role) (evs : list Event) : list string :=
  omap (λ ev, match ev with
              | QPut r item => if decide (r = who) then Some item else None
              | _ => None
              end) evs.



(** The messages sent once the client is at a program point, and the
    most replies it can have taken by then. *)
Definition client_sent (pc : ClientPc) : nat :=
  match pc with
  | ClSend i => i
  | ClWait i | ClPoll i | ClGet i => S i
  | ClDone => message_count
  end.

Definition client_replies_bound (pc : ClientPc) : nat :=
  match pc with
  | ClSend i | ClWait i | ClPoll i | ClGet i => i
  | ClDone => message_count
  end.

(** The program points of the client inside [range(5)]. *)
Definition client_in_range (pc : ClientPc) : Prop :=
  match pc with
  | ClSend i | ClWait i | ClPoll i | ClGet i => i < message_count
  | ClDone => True
  end.

(** *** More words about the queue *)

(** An entry the two threads can produce: a message of the client under
    some number of acknowledgments. *)
Definition wrapped_message (item : string) : Prop :=
  ∃ k i, i < message_count ∧ item = Nat.iter k acknowledgment (client_message i).

(** The entries the server holds between its [get] and its [put]. *)
Definition held (pc : ServerPc) : list string :=
  match pc with
  | SvPut data => [data]
  | _ => []
  end.

(** ** [generate_orchestrators] on a directory tree

    A directory is the files it holds, each with its text, and its
    subdirectories, both in the order [os.walk] lists them.  The
    directories are taken to be writable: the one way [open] fails below
    is on a path that is a directory. *)

Module Generator.

#[warnings="-register-all"]
Inductive Tree :=
  | Folder (files : list (string * string)) (dirs : list (string * Tree)).

Definition tree_files (t : Tree) : list (string * string) :=
  match t with Folder files _ => files end.

Definition tree_dirs (t : Tree) : list (string * Tree) :=
  match t with Folder _ dirs => dirs end.

(** [s.split(sep)] for a separator of one character. *)
Fixpoint split_on (sep : ascii) (s : string) : list string :=
  match s with
  | EmptyString => [EmptyString]
  | String c s' =>
      if decide (c = sep) then EmptyString :: split_on sep s'
      else match split_on sep s' with
           | part :: parts => String c part :: parts
           | [] => [String c EmptyString]
           end
  end.

(** [os.path.basename(p)]: what follows the last slash. *)
Definition basename (p : string) : string :=
  default "" (last (split_on "/" p)).

(** [os.path.join(a, b)] *)
Definition path_join (a b : string) : string :=
  if String.prefix "/" b then b
  else if bool_decide (a = "") || Str.endswith a "/" then a +:+ b
  else a +:+ "/" +:+ b.

Definition newline : string := String (ascii_of_nat 10) EmptyString.

(** [f.endswith('.py') and not 'orchestrate' in f] *)
Definition is_unit_file (file : string) : bool :=
  Str.endswith file ".py" && negb (Str.contains "orchestrate" file).

(** [f"{folder_number}_orchestrate_{len(py_files)}.py"] *)
Definition orchestrator_name_of (folder_name : string) (py_files : list string)
    : string :=
  default "" (head (split_on "_" folder_name)) +:+ "_orchestrate_" +:+
  pretty (length py_files) +:+ ".py".

(** What is written before [folder_name.split('_')[1]] is evaluated. *)
Definition text_header (folder_name : string) : string :=
  "# Automatically generated orchestrator for " +:+ folder_name +:+ newline +:+
  "import importlib" +:+ newline +:+
  "import logging" +:+ newline +:+ newline.

(** The lines of the [files] list, one for each unit file. *)
Fixpoint text_files (folder_name : string) (py_files : list string) : string :=
  match py_files with
  | [] => ""
  | py_file :: py_files' =>
      "        '" +:+ folder_name +:+ "." +:+ Str.drop_last 3 py_file +:+ "'," +:+
      newline +:+ text_files folder_name py_files'
  end.

(** What is written after it. *)
Definition text_body (folder_name function_name : string)
    (py_files : list string) : string :=
  "def run_" +:+ function_name +:+ "(shared_libs):" +:+ newline +:+
  "    logging.info('Running " +:+ function_name +:+ " in order...')" +:+
  newline +:+ newline +:+
  "    files = [" +:+ newline +:+
  text_files folder_name py_files +:+
  "    ]" +:+ newline +:+ newline +:+
  "    for file in files:" +:+ newline +:+
  "        try:" +:+ newline +:+
  "            module = importlib.import_module(file)" +:+ newline +:+
  "            module.execute(shared_libs)" +:+ newline +:+
  "        except Exception as e:" +:+ newline +:+
  "            logging.error(f'Error loading {file}: {e}')" +:+ newline.

(** [open(path, 'w')] followed by writes that amount to [text]: the file
    is created, or truncated and rewritten where it stands. *)
Fixpoint write_file (name text : string) (files : list (string * string))
    : list (string * string) :=
  match files with
  | [] => [(name, text)]
  | (name', text') :: files' =>
      if decide (name' = name) then (name, text) :: files'
      else (name', text') :: write_file name text files'
  end.

(** The body of the loop, for the directory at [root] that lists the
    subdirectories [dirnames] and the files [files]. *)
Definition generate_in (root : string) (dirnames : list string)
    (files : list (string * string)) : list (string * string) * list Event :=
  let py_files := filter (λ f, is_unit_file f) files.*1 in
  match py_files with
  | [] => (files, [])
  | _ :: _ =>
      let folder_name := basename root in
      let orchestrator_name := orchestrator_name_of folder_name py_files in
      let orchestrator_path := path_join root orchestrator_name in
      if bool_decide (orchestrator_name ∈ dirnames) then
        (files,
         [Log ERROR ("Failed to create orchestrator: [Errno 21] Is a directory: '"
                     +:+ orchestrator_path +:+ "'")])
      else
        match split_on "_" folder_name !! 1 with
        | None =>
            (write_file orchestrator_name (text_header folder_name) files,
             [Log ERROR "Failed to create orchestrator: list index out of range"])
        | Some function_name =>
            (write_file orchestrator_name
               (text_header folder_name +:+
                text_body folder_name function_name py_files) files,
             [Log INFO ("Orchestrator " +:+ orchestrator_name +:+
                        " generated successfully.")])
        end
  end.

(** [for root, dirs, files in os.walk(root)]: the directory itself, then
    its subdirectories in turn, each walked in the same way. *)
Fixpoint generate_walk (root : string) (t : Tree) : Tree * list Event :=
  match t with
  | Folder files dirs =>
      let here := generate_in root dirs.*1 files in
      let below :=
        (λ d : string * Tree,
           (d.1, generate_walk (path_join root d.1) d.2)) <$> dirs in
      (Folder here.1 ((λ r : string * (Tree * list Event), (r.1, r.2.1)) <$> below),
       here.2 ++ mjoin ((λ r : string * (Tree * list Event), r.2.2) <$> below))
  end.

(** [generate_orchestrators(base_dir)], on the tree at [base_dir]. *)
Definition generate_orchestrators (base_dir : string) (t : Tree)
    : Tree * list Event :=
  let '(t', logged) := generate_walk base_dir t in
  (t', Log INFO ("Generating orchestrators for: " +:+ base_dir) :: logged).

(** What [os.path.exists] and [os.listdir] answer for the entry [name] of
    the directory [t]. *)
Definition entry_node (t : Tree) (name : string) : Node :=
  match list_find (λ d, d.1 = name) (tree_dirs t) with
  | Some (_, (_, sub)) => Dir ((tree_files sub).*1 ++ (tree_dirs sub).*1)
  | None =>
      if bool_decide (name ∈ (tree_files t).*1) then NotDir else Absent
  end.

(** The working directory [t] as discovery sees it: the paths ["./name"]
    of its entries. *)
Definition as_files (t : Tree) : FS := λ path,
  if String.prefix "./" path
  then entry_node t (String.substring 2 (String.length path - 2) path)
  else Absent.

End Generator.


(** ** A small installation to run the program on *)

Module Demo.

(** Units act on a shared log of names; extra arguments are strings. *)
Definition platform : Platform :=
  {| World := list string; Args := list string; no_args := [];
     Conn := (); Key := () |}.
#[local] Existing Instance platform.

(** A unit whose entry point appends its name to the shared log. *)
Definition appender (name : string) : Module :=
  {| module_name := name;
     run := Some (λ _ args w, (w ++ [name] ++ args, Ok ())) |}.

(** A unit whose entry point always fails. *)
Definition failing (name : string) : Module :=
  {| module_name := name;
     run := Some (λ _ _ w, (w, Raised (Exception "boom"))) |}.

Definition files : FS := λ path,
  if decide (path = "./models") then
    Dir ["b_orchestrate.py"; "notes.txt"; "a_orchestrate.py";
         "broken_orchestrate.py"; "helper.py"; "orchestrate.pyc"]
  else if decide (path = "./services") then Dir ["0_orchestrate_2.py"]
  else Absent.


Definition loadable : list string :=
  ["models.a_orchestrate"; "models.b_orchestrate"; "services.0_orchestrate_2"].

Definition host : Host :=
  {| generate_key := ();
     sqlite3_connect := λ _, inl ();
     import_module := λ name,
       if bool_decide (name ∈ loadable) then inl (appender name)
       else inr ("No module named '" +:+ name +:+ "'");
     generate_orchestrators := λ base_dir files,
       (files, [(INFO, "Generating orchestrators for: " +:+ base_dir)]) |}.
#[local] Existing Instance host.

Definition libs : SharedLibs := {| security_manager := (); db_connection := () |}.

Definition machine : Machine := {| fs := files; world := []; events := [] |}.


(** The machine with the shared log [w] and the events [evs]. *)
Definition machine_at (w : list string) (evs : list Event) : Machine :=
  {| fs := files; world := w; events := evs |}.

(** A framework as [Framework.__init__] leaves it. *)
Definition app0 : Framework :=
  {| shared_libs := libs; modules := [];
     module_types := ["models"; "controllers"; "services"; "utils"; "security"] |}.

(** Units [a], [b], [c] registered in that order. *)
Definition app_abc : Framework :=
  set_modules (λ _, [("a", appender "a"); ("b", appender "b"); ("c", appender "c")]) app0.

(** The same with a failing [b]. *)
Definition app_a_fail_c : Framework :=
  set_modules (λ _, [("a", appender "a"); ("b", failing "b"); ("c", appender "c")]) app0.

End Demo.


(** ** More of the small installation *)

Module Sample.

#[local] Existing Instance Demo.platform.

(** A module that has no [run] attribute. *)
Definition silent (name : string) : Module :=
  {| module_name := name; run := None |}.

(** [a] and a module without [run], registered in that order. *)
Definition app_a_silent : Framework :=
  set_modules (λ _, [("a", Demo.appender "a"); ("s", silent "pkg.s")]) Demo.app0.

(** An installation whose database cannot be opened. *)
Definition host_without_database : Host :=
  {| generate_key := ();
     sqlite3_connect := λ _, inr "unable to open database file";
     import_module := @import_module Demo.platform Demo.host;
     generate_orchestrators := @generate_orchestrators Demo.platform Demo.host |}.

(** The files of the small installation, with a plain file where the
    directory of the services should be. *)
Definition files_with_plain_file : FS := λ path,
  if decide (path = "./services") then NotDir else Demo.files path.

Definition machine_with_plain_file : Machine :=
  {| fs := files_with_plain_file; world := []; events := [] |}.

(** An installation that generates nothing and leaves those files. *)
Definition host_with_plain_file : Host :=
  {| generate_key := ();
     sqlite3_connect := λ _, inl ();
     import_module := @import_module Demo.platform Demo.host;
     generate_orchestrators := λ _ files, (files, []) |}.

(** The models directory of the small installation with other files
    around the same candidates. *)
Definition machine_with_other_files : Machine :=
  {| fs := λ path,
       if decide (path = "./models") then
         Dir ["zz.txt"; "broken_orchestrate.py"; "b_orchestrate.py";
              "a_orchestrate.py"; "unit.py"]
       else Absent;
     world := []; events := [] |}.

(** A working directory for the generator: one unit file in [models],
    two in [01_io], and a file of its own. *)
Definition models_folder : Generator.Tree :=
  Generator.Folder [("user.py", "class User: pass"); ("notes.txt", "")] [].

Definition io_folder : Generator.Tree :=
  Generator.Folder [("read.py", ""); ("write.py", "")] [].

Definition tree : Generator.Tree :=
  Generator.Folder [("main.py", "")]
    [("models", models_folder); ("01_io", io_folder)].

End Sample.

(** * Properties *)

(** ** Strings *)

Section StringFacts.
Implicit Types s t u : string.

Lemma string_app_cons c s t : String c s +:+ t = String c (s +:+ t).
Proof. reflexivity. Qed.

Lemma string_app_nil_l s : "" +:+ s = s.
Proof. reflexivity. Qed.

Lemma string_app_nil_r s : s +:+ "" = s.
Proof.
  induction s as [|c s IH]; [done|]. by rewrite string_app_cons, IH.
Qed.

Lemma string_app_assoc s t u : (s +:+ t) +:+ u = s +:+ t +:+ u.
Proof.
  induction s as [|c s IH]; [done|]. by rewrite !string_app_cons, IH.
Qed.

Lemma string_app_length s t :
  String.length (s +:+ t) = String.length s + String.length t.
Proof.
  induction s as [|c s IH]; [done|]. rewrite string_app_cons. simpl.
  by rewrite IH.
Qed.

(** Cancellation of a common suffix. *)
Lemma string_app_inj_r s1 s2 t : s1 +:+ t = s2 +:+ t → s1 = s2.
Proof.
  revert s2. induction s1 as [|c1 s1 IH]; intros [|c2 s2] Heq.
  - done.
  - apply (f_equal String.length) in Heq.
    rewrite !string_app_length in Heq. simpl in Heq. lia.
  - apply (f_equal String.length) in Heq.
    rewrite !string_app_length in Heq. simpl in Heq. lia.
  - rewrite !string_app_cons in Heq. injection Heq as -> Heq.
    f_equal. by apply IH.
Qed.

(** A name is recovered from a message built around it. *)
Lemma framed_inj (pre post : string) s1 s2 :
  pre +:+ s1 +:+ post = pre +:+ s2 +:+ post → s1 = s2.
Proof.
  intros Heq. apply (inj (String.app pre)) in Heq.
  by apply string_app_inj_r in Heq.
Qed.

Lemma substring_all s : String.substring 0 (String.length s) s = s.
Proof. induction s as [|c s IH]; simpl; [done|]. by rewrite IH. Qed.

(** A string is its first [n] characters followed by the rest. *)
Lemma substring_split n : ∀ s,
  n ≤ String.length s →
  String.substring 0 n s +:+ String.substring n (String.length s - n) s = s.
Proof.
  induction n as [|n IH]; intros s Hn.
  - rewrite Nat.sub_0_r, substring_all. by destruct s.
  - destruct s as [|c s]; simpl in Hn; [lia|].
    simpl. rewrite string_app_cons, IH by lia. done.
Qed.

Lemma endswith_split s suffix :
  Str.endswith s suffix = true →
  s = Str.drop_last (String.length suffix) s +:+ suffix.
Proof.
  unfold Str.endswith, Str.drop_last.
  intros [Hlen Hsub]%andb_prop.
  apply bool_decide_eq_true in Hlen, Hsub.
  pose proof (substring_split (String.length s - String.length suffix) s)
    as Hsplit.
  replace (String.length s - (String.length s - String.length suffix))
    with (String.length suffix) in Hsplit by lia.
  rewrite Hsub in Hsplit. symmetry. apply Hsplit. lia.
Qed.

(** A candidate file is its stem followed by [".py"]. *)
Lemma is_orchestrator_stem file :
  is_orchestrator file = true → file = Str.drop_last 3 file +:+ ".py".
Proof.
  unfold is_orchestrator. intros [Hpy _]%andb_prop.
  by apply endswith_split in Hpy.
Qed.

Lemma module_name_of_inj_file module_type file1 file2 :
  is_orchestrator file1 = true →
  is_orchestrator file2 = true →
  module_name_of module_type file1 = module_name_of module_type file2 →
  file1 = file2.
Proof.
  intros H1%is_orchestrator_stem H2%is_orchestrator_stem Heq.
  unfold module_name_of in Heq.
  do 2 apply (inj (String.app _)) in Heq.
  rewrite H1, H2. by rewrite Heq.
Qed.

Lemma dot_free_cons c s :
  dot_free (String c s) = true → c ≠ "."%char ∧ dot_free s = true.
Proof.
  unfold dot_free.
  change (Str.contains "." (String c s)) with
    ((if Ascii.ascii_dec "." c then String.prefix "" s else false)
     || Str.contains "." s).
  destruct (Ascii.ascii_dec "." c) as [<-|Hne].
  - by destruct s.
  - intros Hs. split; [congruence|done].
Qed.

Lemma module_name_of_inj_type type1 : ∀ type2 file1 file2,
  dot_free type1 = true →
  dot_free type2 = true →
  module_name_of type1 file1 = module_name_of type2 file2 →
  type1 = type2.
Proof.
  unfold module_name_of.
  induction type1 as [|c1 type1 IH]; intros [|c2 type2] file1 file2 H1 H2 Heq.
  - done.
  - apply dot_free_cons in H2 as [Hc _].
    rewrite string_app_nil_l, !string_app_cons in Heq. congruence.
  - apply dot_free_cons in H1 as [Hc _].
    rewrite string_app_nil_l, !string_app_cons in Heq. congruence.
  - apply dot_free_cons in H1 as [_ H1]. apply dot_free_cons in H2 as [_ H2].
    rewrite !string_app_cons in Heq. injection Heq as -> Heq.
    f_equal. by eapply IH.
Qed.

End StringFacts.

(** ** The monad and the registry *)

Section RegistryFacts.
Context `{Host}.
Implicit Types (m : Machine) (self : Framework) (d : Dict) (name : string).

Lemma log_more_nil m : log_more [] m = m.
Proof. destruct m. unfold log_more. simpl. by rewrite app_nil_r. Qed.

Lemma log_more_app evs1 evs2 m :
  log_more evs2 (log_more evs1 m) = log_more (evs1 ++ evs2) m.
Proof. unfold log_more. simpl. by rewrite app_assoc. Qed.

Lemma dict_contains_true name d : dict_contains name d = true ↔ name ∈ d.*1.
Proof. unfold dict_contains. by rewrite bool_decide_eq_true. Qed.

Lemma dict_contains_false name d : dict_contains name d = false ↔ name ∉ d.*1.
Proof. unfold dict_contains. by rewrite bool_decide_eq_false. Qed.

Lemma dict_get_None name d : dict_get name d = None ↔ name ∉ d.*1.
Proof.
  induction d as [|[k v] d IH]; simpl.
  - split; [intros _; apply not_elem_of_nil | done].
  - rewrite not_elem_of_cons. case_decide; [subst|]; intuition congruence.
Qed.

Lemma dict_get_is_Some name d : is_Some (dict_get name d) ↔ name ∈ d.*1.
Proof.
  rewrite <-not_eq_None_Some, dict_get_None.
  destruct (decide (name ∈ d.*1)); naive_solver.
Qed.

Lemma dict_get_app name d1 d2 :
  dict_get name (d1 ++ d2) =
    match dict_get name d1 with Some v => Some v | None => dict_get name d2 end.
Proof.
  induction d1 as [|[k v] d1 IH]; simpl; [done|]. by case_decide.
Qed.

Lemma dict_set_fresh name v d :
  name ∉ d.*1 → dict_set name v d = d ++ [(name, v)].
Proof.
  induction d as [|[k v0] d IH]; simpl; [done|].
  rewrite not_elem_of_cons. intros [Hne Hd].
  case_decide; [congruence|]. by rewrite IH.
Qed.

(** What [register_module] does on a name that is present. *)
Lemma register_module_present name module self m :
  name ∈ (modules self).*1 →
  register_module name module self m =
    (log_more [duplicate_report name] m, Ok self).
Proof.
  intros Hin. unfold register_module.
  apply dict_contains_true in Hin. by rewrite Hin.
Qed.

(** What it does on a name that is absent. *)
Lemma register_module_fresh name module self m :
  name ∉ (modules self).*1 →
  register_module name module self m =
    (log_more [registered_report name] m,
     Ok (set_modules (λ d, d ++ [(name, module)]) self)).
Proof.
  intros Hin. unfold register_module.
  rewrite (proj2 (dict_contains_false _ _) Hin).
  unfold set_modules. by rewrite dict_set_fresh.
Qed.

Lemma registered_report_inj name1 name2 :
  registered_report name1 = registered_report name2 → name1 = name2.
Proof. intros [= Heq]. by apply framed_inj in Heq. Qed.

Lemma dict_get_skip name k v d1 d2 :
  k ∈ d1.*1 → dict_get name (d1 ++ (k, v) :: d2) = dict_get name (d1 ++ d2).
Proof.
  intros Hk. rewrite !dict_get_app. destruct (dict_get name d1) eqn:Hget; [done|].
  simpl. case_decide; [subst|done].
  apply dict_get_None in Hget. contradiction.
Qed.

Lemma accepted_count_cons_other name ev logged :
  ev ≠ registered_report name →
  accepted_count name (ev :: logged) = accepted_count name logged.
Proof. intros Hne. unfold accepted_count. by rewrite filter_cons_False. Qed.

Lemma accepted_count_cons_same name logged :
  accepted_count name (registered_report name :: logged) =
    S (accepted_count name logged).
Proof. unfold accepted_count. by rewrite filter_cons_True. Qed.

Lemma register_all_cons name module calls self m :
  register_all ((name, module) :: calls) self m =
    match register_module name module self m with
    | (m', Ok self') => register_all calls self' m'
    | (m', Raised e) => (m', Raised e)
    end.
Proof. reflexivity. Qed.

(** A sequence of calls, call by call. *)
Lemma register_all_spec calls : ∀ self0 m,
  NoDup (modules self0).*1 →
  ∃ self logged,
    register_all calls self0 m = (log_more logged m, Ok self) ∧
    NoDup (modules self).*1 ∧
    (∀ name, name ∈ (modules self).*1 ↔
               name ∈ (modules self0).*1 ∨ name ∈ calls.*1) ∧
    (∀ name, accepted_count name logged =
               if bool_decide (name ∈ calls.*1 ∧ name ∉ (modules self0).*1)
               then 1 else 0) ∧
    (∀ name, dict_get name (modules self) =
               dict_get name (modules self0 ++ calls)).
Proof.
  induction calls as [|[n v] calls IH]; intros self0 m Hnodup.
  - exists self0, []. rewrite log_more_nil, app_nil_r. split_and!; try done.
    intros name. rewrite fmap_nil, elem_of_nil. tauto.
  - rewrite register_all_cons.
    destruct (decide (n ∈ (modules self0).*1)) as [Hin|Hfresh].
    + rewrite register_module_present by done.
      destruct (IH self0 (log_more [duplicate_report n] m) Hnodup)
        as (self & logged & Hrun & Hnd & Hkeys & Hcount & Hget).
      rewrite Hrun, log_more_app.
      exists self, ([duplicate_report n] ++ logged). split_and!; try done.
      * intros name. rewrite Hkeys, fmap_cons, elem_of_cons. simpl.
        split; [tauto|]. intros [?|[->|?]]; tauto.
      * intros name. change ([?x] ++ ?l) with (x :: l).
        rewrite accepted_count_cons_other by discriminate.
        rewrite Hcount.
        repeat case_bool_decide; rewrite ?fmap_cons, ?elem_of_cons in *;
          intuition (subst; tauto).
      * intros name. by rewrite Hget, dict_get_skip.
    + rewrite register_module_fresh by done.
      set (self1 := set_modules (λ d, d ++ [(n, v)]) self0).
      assert (NoDup (modules self1).*1) as Hnodup1.
      { simpl. rewrite fmap_app. apply NoDup_app. split_and!; [done| |].
        - intros x Hx. simpl. rewrite list_elem_of_singleton. by intros ->.
        - simpl. apply NoDup_singleton. }
      destruct (IH self1 (log_more [registered_report n] m) Hnodup1)
        as (self & logged & Hrun & Hnd & Hkeys & Hcount & Hget).
      rewrite Hrun, log_more_app.
      exists self, ([registered_report n] ++ logged). split_and!; try done.
      * intros name. rewrite Hkeys. simpl.
        rewrite fmap_app, elem_of_app, fmap_cons, !elem_of_cons. simpl.
        rewrite elem_of_nil. tauto.
      * intros name. change ([?x] ++ ?l) with (x :: l).
        assert (∀ x, x ∈ (modules self1).*1 ↔ x ∈ (modules self0).*1 ∨ x = n)
          as Hkeys1.
        { intros x. unfold self1. simpl.
          rewrite fmap_app, elem_of_app, fmap_cons, fmap_nil.
          by rewrite list_elem_of_singleton. }
        destruct (decide (name = n)) as [->|Hne].
        -- rewrite accepted_count_cons_same, Hcount.
           repeat case_bool_decide;
             rewrite ?fmap_cons, ?elem_of_cons, ?Hkeys1 in *;
             intuition (subst; tauto).
        -- rewrite accepted_count_cons_other
             by (intros Heq; by apply registered_report_inj in Heq).
           rewrite Hcount.
           repeat case_bool_decide;
             rewrite ?fmap_cons, ?elem_of_cons, ?Hkeys1 in *;
             intuition (subst; tauto).
      * intros name. rewrite Hget. simpl. by rewrite <-app_assoc.
Qed.

(** C1, as the code has it.  Over every sequence of [register_module]
    calls on a registry, a name is accepted at most once and the
    descriptor kept under a name is the first one registered under it.
    A call with a name that is already present raises nothing: it logs
    the error record "Module <name> already exists!" and returns the
    framework as it was, so the descriptor stored under the name and the
    size of the registry are unchanged. *)
Theorem register_module_at_most_once
    (self0 : Framework) (calls : list (string * Module)) (m : Machine) :
  NoDup (modules self0).*1 →
  ∃ self logged,
    register_all calls self0 m = (log_more logged m, Ok self) ∧
    NoDup (modules self).*1 ∧
    (∀ name, accepted_count name logged ≤ 1) ∧
    (∀ name, dict_get name (modules self) =
               dict_get name (modules self0 ++ calls)) ∧
    (∀ name module m1, name ∈ (modules self).*1 →
       ∃ self', register_module name module self m1 =
                  (log_more [duplicate_report name] m1, Ok self') ∧
                dict_get name (modules self') = dict_get name (modules self) ∧
                length (modules self') = length (modules self) ∧
                modules self' = modules self).
Proof.
  intros Hnodup.
  destruct (register_all_spec calls self0 m Hnodup)
    as (self & logged & Hrun & Hnd & Hkeys & Hcount & Hget).
  exists self, logged. split_and!; try done.
  - intros name. rewrite Hcount. case_bool_decide; lia.
  - intros name module m1 Hin. exists self.
    by rewrite register_module_present.
Qed.

End RegistryFacts.

(** ** Dispatch *)

Section DispatchFacts.
Context `{Host}.
Implicit Types (m : Machine) (self app : Framework) (name : string).

Lemma run_module_missing self name args m :
  name ∉ (modules self).*1 →
  run_module self name args m = (log_more [not_found_report name] m, Ok ()).
Proof.
  intros Hin. unfold run_module.
  by rewrite (proj2 (dict_contains_false _ _) Hin).
Qed.

Lemma run_module_present self name args m module entry :
  dict_get name (modules self) = Some module →
  run module = Some entry →
  run_module self name args m =
    (after_call name (entry (shared_libs self) args (world m)).1 m,
     (entry (shared_libs self) args (world m)).2).
Proof.
  intros Hget Hrun. unfold run_module.
  assert (name ∈ (modules self).*1) as Hin
    by (apply dict_get_is_Some; by rewrite Hget).
  rewrite (proj2 (dict_contains_true _ _) Hin). simpl.
  rewrite Hget, Hrun. unfold mbind, M_bind, emit, call_entry. simpl.
  by destruct (entry _ _ _).
Qed.

Lemma run_module_no_entry self name args m module :
  dict_get name (modules self) = Some module →
  run module = None →
  ∃ msg, run_module self name args m = (m, Raised (Exception msg)).
Proof.
  intros Hget Hrun. unfold run_module.
  assert (name ∈ (modules self).*1) as Hin
    by (apply dict_get_is_Some; by rewrite Hget).
  rewrite (proj2 (dict_contains_true _ _) Hin). simpl.
  rewrite Hget, Hrun. by eexists.
Qed.

(** A registered name is called at most once by [run_module], which
    logs nothing for it and leaves the files alone. *)
Lemma run_module_registered self name args m :
  name ∈ (modules self).*1 →
  ∃ called w,
    (run_module self name args m).1 =
      {| fs := fs m; world := w; events := events m ++ (Call <$> called) |} ∧
    (called = [name] ∨
     called = [] ∧ ∃ e, (run_module self name args m).2 = Raised e).
Proof.
  intros Hin. apply dict_get_is_Some in Hin as [module Hget].
  destruct (run module) as [entry|] eqn:Hrun.
  - rewrite (run_module_present _ _ _ _ _ _ Hget Hrun).
    exists [name], (entry (shared_libs self) args (world m)).1. split; [done|by left].
  - destruct (run_module_no_entry _ _ args m _ Hget Hrun) as [msg ->].
    exists [], (world m). destruct m. simpl. rewrite app_nil_r.
    split; [done|]. right. eauto.
Qed.

Lemma run_names_cons app name names m :
  run_names app (name :: names) m =
    match run_module app name no_args m with
    | (m', Ok _) => run_names app names m'
    | (m', Raised e) => (m', Raised e)
    end.
Proof.
  unfold run_names. simpl. unfold mbind, M_bind.
  by destruct (run_module app name no_args m) as [m' [[]|e]].
Qed.

Lemma run_names_app app names1 names2 m :
  run_names app (names1 ++ names2) m =
    match run_names app names1 m with
    | (m', Ok _) => run_names app names2 m'
    | (m', Raised e) => (m', Raised e)
    end.
Proof.
  revert m. induction names1 as [|name names1 IH]; intros m; [done|].
  rewrite <-app_comm_cons, !run_names_cons.
  destruct (run_module app name no_args m) as [m' [[]|e]]; [apply IH|done].
Qed.

(** The calls made by the loop over [names]: a prefix of [names], all of
    it when the loop completes. *)
Lemma run_names_calls app names : ∀ m,
  names ⊆ (modules app).*1 →
  ∃ invoked w,
    (run_names app names m).1 =
      {| fs := fs m; world := w; events := events m ++ (Call <$> invoked) |} ∧
    invoked `prefix_of` names ∧
    ((run_names app names m).2 = Ok () → invoked = names).
Proof.
  induction names as [|name names IH]; intros m Hsub.
  - exists [], (world m). destruct m. simpl. rewrite app_nil_r. done.
  - rewrite run_names_cons.
    assert (name ∈ (modules app).*1) as Hin by (apply Hsub; left).
    destruct (run_module_registered app name no_args m Hin)
      as (called & w & Hm1 & Hcalled).
    destruct (run_module app name no_args m) as [m1 [[]|e]] eqn:Hrun;
      simpl in Hm1.
    + destruct Hcalled as [->|[_ [e He]]]; [|by simpl in He].
      subst m1.
      edestruct IH as (invoked & w' & Hm2 & Hpre & Hall).
      { intros x Hx. apply Hsub. by right. }
      exists (name :: invoked), w'. rewrite Hm2. simpl.
      rewrite <-app_assoc. split_and!; [done|by apply prefix_cons|].
      intros Hok. by rewrite (Hall Hok).
    + exists called, w. simpl. split_and!; [done| |done].
      destruct Hcalled as [->|[-> _]];
        [apply prefix_cons, prefix_nil|apply prefix_nil].
Qed.

Lemma run_names_all_complete app names : ∀ m,
  (∀ name m1, name ∈ names → (run_module app name no_args m1).2 = Ok ()) →
  (run_names app names m).2 = Ok ().
Proof.
  induction names as [|name names IH]; intros m Hok; [done|].
  rewrite run_names_cons.
  assert ((run_module app name no_args m).2 = Ok ()) as Hhd
    by (apply Hok; left).
  destruct (run_module app name no_args m) as [m1 [[]|e]]; [|done].
  apply IH. intros n m2 Hn. apply Hok. by right.
Qed.

(** C3, as the code has it.  [run_module] on a name that is not
    registered raises nothing: it logs the error record "Module <name>
    not found!" and returns, with no other effect (no entry point is
    called; files, world and registry are as before).  On a name
    registered by [register_module name d], it calls the entry point of
    [d] with the shared context of the framework and the arguments it
    was given, and returns when that call has completed, with the result
    of that call. *)
Theorem run_module_by_name self name args m :
  (name ∉ (modules self).*1 →
     run_module self name args m =
       (log_more [not_found_report name] m, Ok ())) ∧
  (∀ d entry m0,
     name ∉ (modules self).*1 →
     run d = Some entry →
     ∃ self1 m1,
       register_module name d self m0 = (m1, Ok self1) ∧
       shared_libs self1 = shared_libs self ∧
       run_module self1 name args m =
         (after_call name (entry (shared_libs self) args (world m)).1 m,
          (entry (shared_libs self) args (world m)).2)).
Proof.
  split; [apply run_module_missing|].
  intros d entry m0 Hfresh Hentry.
  rewrite register_module_fresh by done.
  eexists _, _. split_and!; [done..|].
  erewrite run_module_present; [done| |done]. simpl.
  rewrite dict_get_app.
  rewrite (proj2 (dict_get_None _ _) Hfresh). simpl.
  by rewrite decide_True.
Qed.

(** C2, as the code has it.  The loop that ends [titanoboa] calls the
    registered units one after another in registration order, each at
    most once, and logs nothing.  When every call completes, every
    registered unit has been called exactly once.  When a unit fails,
    the exception is not caught: the loop ends with it, in the state the
    failing call left, and the units registered after it are not
    called. *)
Theorem run_all_in_order_until_failure app m :
  NoDup (modules app).*1 →
  (∃ invoked w,
     (run_all app m).1 =
       {| fs := fs m; world := w; events := events m ++ (Call <$> invoked) |} ∧
     invoked `prefix_of` (modules app).*1 ∧
     NoDup invoked ∧
     ((run_all app m).2 = Ok () → invoked = (modules app).*1)) ∧
  ((∀ name m1, name ∈ (modules app).*1 →
      (run_module app name no_args m1).2 = Ok ()) →
   (run_all app m).2 = Ok ()) ∧
  (∀ pre name post m1 m2 e,
     (modules app).*1 = pre ++ name :: post →
     run_names app pre m = (m1, Ok ()) →
     run_module app name no_args m1 = (m2, Raised e) →
     run_all app m = (m2, Raised e)).
Proof.
  intros Hnodup. split_and!.
  - destruct (run_names_calls app (modules app).*1 m) as
      (invoked & w & Hm & Hpre & Hall); [done|].
    exists invoked, w. split_and!; try done.
    destruct Hpre as [rest Hrest]. rewrite Hrest in Hnodup.
    by apply NoDup_app in Hnodup as [? _].
  - apply run_names_all_complete.
  - intros pre name post m1 m2 e Hkeys Hpre Hfail.
    unfold run_all. rewrite Hkeys, run_names_app, Hpre, run_names_cons.
    by rewrite Hfail.
Qed.

End DispatchFacts.

(** ** Discovery *)

Section DiscoveryFacts.
Context `{Host}.
Implicit Types (m : Machine) (self : Framework) (name : string).

Lemma for_each_cons {A S} (x : A) xs (body : A → S → M S) s m :
  for_each (x :: xs) body s m =
    match body x s m with
    | (m', Ok s') => for_each xs body s' m'
    | (m', Raised e) => (m', Raised e)
    end.
Proof. reflexivity. Qed.

Lemma for_each_app {A S} (xs1 xs2 : list A) (body : A → S → M S) s m :
  for_each (xs1 ++ xs2) body s m =
    match for_each xs1 body s m with
    | (m', Ok s') => for_each xs2 body s' m'
    | (m', Raised e) => (m', Raised e)
    end.
Proof.
  revert s m. induction xs1 as [|x xs1 IH]; intros s m; [done|].
  simpl. unfold mbind, M_bind.
  destruct (body x s m) as [m' [s'|e]]; [apply IH|done].
Qed.

Lemma set_modules_id self : set_modules (λ d, d ++ []) self = self.
Proof. destruct self. unfold set_modules. simpl. by rewrite app_nil_r. Qed.

Lemma set_modules_app self (d1 d2 : Dict) :
  set_modules (λ d, d ++ d2) (set_modules (λ d, d ++ d1) self) =
    set_modules (λ d, d ++ (d1 ++ d2)) self.
Proof. unfold set_modules. simpl. by rewrite app_assoc. Qed.

(** A candidate that cannot be loaded is logged and skipped. *)
Lemma load_module_named_failure name e self m :
  import_module name = inr e →
  load_module_named name self m =
    (log_more [load_failure_report name e] m, Ok self).
Proof.
  intros Himp. unfold load_module_named, try_except, importlib_import_module.
  unfold mbind, M_bind. by rewrite Himp.
Qed.

(** A candidate that loads is handed to [register_module]. *)
Lemma load_module_named_loaded name module self m :
  import_module name = inl module →
  load_module_named name self m = register_module name module self m.
Proof.
  intros Himp. unfold load_module_named, try_except, importlib_import_module.
  unfold mbind, M_bind. rewrite Himp. simpl.
  unfold register_module. by destruct (dict_contains _ _).
Qed.

(** One candidate: one record, no exception, and an outcome that does
    not depend on the machine. *)
Lemma load_module_named_total name self :
  ∃ ev self', ∀ m,
    load_module_named name self m = (log_more [ev] m, Ok self').
Proof.
  destruct (import_module name) as [module|e] eqn:Himp.
  - destruct (decide (name ∈ (modules self).*1)).
    + eexists _, _. intros m.
      rewrite (load_module_named_loaded _ _ _ _ Himp).
      by apply register_module_present.
    + eexists _, _. intros m.
      rewrite (load_module_named_loaded _ _ _ _ Himp).
      by apply register_module_fresh.
  - eexists _, _. intros m. by apply load_module_named_failure.
Qed.

Lemma load_names_total names : ∀ self,
  ∃ logged self', ∀ m,
    for_each names load_module_named self m = (log_more logged m, Ok self').
Proof.
  induction names as [|name names IH]; intros self.
  - exists [], self. intros m. by rewrite log_more_nil.
  - destruct (load_module_named_total name self) as (ev & self1 & Hhd).
    destruct (IH self1) as (logged & self' & Htl).
    exists (ev :: logged), self'. intros m.
    simpl. unfold mbind, M_bind. by rewrite Hhd, Htl, log_more_app.
Qed.

(** Candidates with fresh, distinct names: what is registered and what
    is logged, candidate by candidate. *)
Lemma load_names_spec names : ∀ self m,
  NoDup names →
  (∀ name, name ∈ names → name ∉ (modules self).*1) →
  for_each names load_module_named self m =
    (log_more (discovery_report <$> names) m,
     Ok (set_modules (λ d, d ++ omap resolved names) self)).
Proof.
  induction names as [|name names IH]; intros self m Hnodup Hfresh.
  - simpl. by rewrite log_more_nil, set_modules_id.
  - apply NoDup_cons in Hnodup as [Hname Hnodup].
    simpl. unfold mbind, M_bind, discovery_report at 1, resolved at 1.
    destruct (import_module name) as [module|e] eqn:Himp.
    + rewrite (load_module_named_loaded _ _ _ _ Himp).
      rewrite register_module_fresh by (apply Hfresh; left).
      rewrite IH, log_more_app, set_modules_app; [done..|].
      intros n Hn. simpl. rewrite fmap_app, elem_of_app.
      intros [?|Heq]; [by eapply Hfresh; [right|]|].
      apply list_elem_of_singleton in Heq. simpl in Heq. by subst.
    + rewrite (load_module_named_failure _ _ _ _ Himp).
      rewrite IH, log_more_app; [done..|].
      intros n Hn. apply Hfresh. by right.
Qed.

Lemma for_each_load_files module_type files : ∀ self m,
  for_each files (load_file module_type) self m =
    for_each (module_name_of module_type <$> filter is_orchestrator files)
             load_module_named self m.
Proof.
  induction files as [|file files IH]; intros self m; [done|].
  rewrite for_each_cons. unfold load_file at 1.
  destruct (is_orchestrator file) eqn:Hfile.
  - rewrite filter_cons_True by (by rewrite Hfile).
    rewrite fmap_cons, for_each_cons.
    destruct (load_module_named _ self m) as [m' [self'|e]]; [apply IH|done].
  - rewrite filter_cons_False by (rewrite Hfile; intros []). apply IH.
Qed.

Lemma scan_module_type_unfold module_type self m :
  scan_module_type module_type self m =
    match fs m ("./" +:+ module_type) with
    | Absent => (m, Ok self)
    | Dir entries =>
        for_each (module_name_of module_type <$>
                    filter is_orchestrator (sorted entries))
                 load_module_named self m
    | NotDir =>
        (m, Raised (Exception ("[Errno 20] Not a directory: '" +:+
                               ("./" +:+ module_type) +:+ "'")))
    end.
Proof.
  unfold scan_module_type, get_fs, mbind, M_bind.
  destruct (fs m _); [done| |done]. apply for_each_load_files.
Qed.

Lemma candidates_cons files module_type types :
  candidates files (module_type :: types) =
    match files ("./" +:+ module_type) with
    | Dir entries =>
        module_name_of module_type <$> filter is_orchestrator (sorted entries)
    | _ => []
    end ++ candidates files types.
Proof. reflexivity. Qed.

(** When every directory of a module type can be listed, discovery is
    the loading of the candidates, one after the other. *)
Lemma discover_listable types : ∀ self m,
  (∀ module_type, module_type ∈ types →
     fs m ("./" +:+ module_type) ≠ NotDir) →
  for_each types scan_module_type self m =
    for_each (candidates (fs m) types) load_module_named self m.
Proof.
  induction types as [|t types IH]; intros self m Hlist; [done|].
  rewrite for_each_cons, scan_module_type_unfold, candidates_cons, for_each_app.
  assert (fs m ("./" +:+ t) ≠ NotDir) as Ht by (apply Hlist; left).
  assert (∀ t', t' ∈ types → fs m ("./" +:+ t') ≠ NotDir) as Hrest
    by (intros t' Ht'; apply Hlist; by right).
  destruct (fs m ("./" +:+ t)) as [|entries|]; [by apply IH| |done].
  destruct (load_names_total
              (module_name_of t <$> filter is_orchestrator (sorted entries))
              self) as (logged & self' & ->).
  apply (IH self' (log_more logged m) Hrest).
Qed.

Lemma sorted_Permutation l : sorted l ≡ₚ l.
Proof. apply merge_sort_Permutation. Qed.



(** Distinct files of distinct module types have distinct module
    names. *)
Lemma candidates_NoDup files types :
  NoDup types →
  Forall (λ t, dot_free t = true) types →
  (∀ t entries, files ("./" +:+ t) = Dir entries → NoDup entries) →
  NoDup (candidates files types).
Proof.
  intros Hnodup Hdots Hlistings. unfold candidates.
  rewrite Forall_forall in Hdots.
  apply NoDup_bind; [| |done].
  - intros t1 t2 name Ht1 Ht2 Hn1 Hn2.
    destruct (files ("./" +:+ t1)); [by apply elem_of_nil in Hn1| |
                                     by apply elem_of_nil in Hn1].
    destruct (files ("./" +:+ t2)); [by apply elem_of_nil in Hn2| |
                                     by apply elem_of_nil in Hn2].
    apply list_elem_of_fmap in Hn1 as (file1 & -> & _).
    apply list_elem_of_fmap in Hn2 as (file2 & Heq & _).
    eapply module_name_of_inj_type; [by apply Hdots..|done].
  - intros t _. destruct (files ("./" +:+ t)) as [|entries|] eqn:Hdir;
      [apply NoDup_nil_2| |apply NoDup_nil_2].
    apply NoDup_fmap_2_strong.
    + intros file1 file2 [Hf1 _]%list_elem_of_filter [Hf2 _]%list_elem_of_filter.
      apply module_name_of_inj_file; by apply Is_true_true.
    + apply NoDup_filter. rewrite sorted_Permutation. by eapply Hlistings.
Qed.

Lemma new_framework_types libs :
  NoDup (module_types (new_framework libs)) ∧
  Forall (λ t, dot_free t = true) (module_types (new_framework libs)).
Proof.
  split.
  - simpl. by apply (bool_decide_unpack _).
  - repeat constructor.
Qed.

Lemma omap_resolved_cons name names :
  omap resolved (name :: names) =
    match import_module name with
    | inl module => (name, module) :: omap resolved names
    | inr _ => omap resolved names
    end.
Proof. unfold resolved at 1. simpl. unfold resolved at 1. by destruct (import_module name). Qed.

Lemma filter_resolves_cons name names :
  filter resolves (name :: names) =
    match import_module name with
    | inl _ => name :: filter resolves names
    | inr _ => filter resolves names
    end.
Proof.
  destruct (import_module name) eqn:Himp.
  - rewrite filter_cons_True; [done|]. unfold resolves. by rewrite Himp.
  - rewrite filter_cons_False; [done|]. unfold resolves. rewrite Himp. intros [].
Qed.

Lemma keys_resolved (names : list string) : (omap resolved names).*1 = filter resolves names.
Proof.
  induction names as [|name names IH]; [done|].
  rewrite omap_resolved_cons, filter_resolves_cons.
  destruct (import_module name); [|done]. by rewrite fmap_cons, IH.
Qed.



(** Discovery from a new framework, on directories that can be listed
    and list no entry twice. *)
Lemma discover_new_framework libs m :
  (∀ t, t ∈ module_types (new_framework libs) →
     fs m ("./" +:+ t) ≠ NotDir) →
  (∀ t entries, fs m ("./" +:+ t) = Dir entries → NoDup entries) →
  auto_discover_and_register (new_framework libs) m =
    (log_more
       (discovery_report <$>
          candidates (fs m) (module_types (new_framework libs))) m,
     Ok (set_modules
           (λ _, omap resolved
                   (candidates (fs m) (module_types (new_framework libs))))
           (new_framework libs))).
Proof.
  intros Hlist Hlistings. unfold auto_discover_and_register.
  rewrite discover_listable by done.
  rewrite load_names_spec; [done| |by intros name _ ?%elem_of_nil].
  destruct (new_framework_types libs).
  by apply candidates_NoDup.
Qed.







Lemma discover_preserves_files types self m :
  fs (for_each types scan_module_type self m).1 = fs m.
Proof.
  revert self m. induction types as [|t types IH]; intros self m; [done|].
  rewrite for_each_cons, scan_module_type_unfold.
  destruct (fs m ("./" +:+ t)) as [|entries|] eqn:Hdir; [apply IH| |done].
  destruct (load_names_total
              (module_name_of t <$> filter is_orchestrator (sorted entries))
              self) as (logged & self' & ->).
  apply (IH self' (log_more logged m)).
Qed.

(** C9.  A module type whose directory does not exist is skipped: its
    turn in the loop changes nothing, registers nothing, logs nothing
    and raises nothing, and discovery is what it would be without that
    module type in the list. *)
Theorem discovery_skips_absent_directory self m module_type :
  fs m ("./" +:+ module_type) = Absent →
  scan_module_type module_type self m = (m, Ok self) ∧
  (∀ before after,
     module_types self = before ++ module_type :: after →
     auto_discover_and_register self m =
       for_each (before ++ after) scan_module_type self m).
Proof.
  intros Habsent. split.
  - by rewrite scan_module_type_unfold, Habsent.
  - intros before after Htypes. unfold auto_discover_and_register.
    rewrite Htypes, !for_each_app.
    pose proof (discover_preserves_files before self m) as Hfs.
    destruct (for_each before scan_module_type self m) as [m1 [self1|e]];
      [|done].
    simpl in Hfs. rewrite for_each_cons, scan_module_type_unfold, Hfs.
    by rewrite Habsent.
Qed.

End DiscoveryFacts.

(** ** Startup *)

Section StartupFacts.
Context `{Host}.
Implicit Types (m : Machine) (app : Framework).



End StartupFacts.

(** ** The channel and the two threads *)

Section ChannelFacts.
Implicit Types (q : Channel) (s : Sys) (who : Role).

Lemma got_by_app who evs1 evs2 :
  got_by who (evs1 ++ evs2) = got_by who evs1 ++ got_by who evs2.
Proof. apply omap_app. Qed.

Lemma put_by_app who evs1 evs2 :
  put_by who (evs1 ++ evs2) = put_by who evs1 ++ put_by who evs2.
Proof. apply omap_app. Qed.

(** *** The server *)


(** A pass through the loop body is the steps from the head of the loop
    back to it. *)
Lemma server_iteration_steps q :
  match q with
  | [] => server_step SvPoll q = Some (SvPoll, q, [])
  | data :: q' =>
      ∃ evs1 evs2 evs3,
        server_step SvPoll q = Some (SvGet, q, evs1) ∧
        server_step SvGet q = Some (SvPut data, q', evs2) ∧
        server_step (SvPut data) q' =
          Some (SvPoll, (server_iteration q).1, evs3) ∧
        (server_iteration q).2 = evs1 ++ evs2 ++ evs3
  end.
Proof. destruct q as [|data q']; [done|]. by eexists _, _, _. Qed.

(** Induction over the executions of the two threads. *)
Lemma reachable_ind (P : Sys → Prop) :
  P sys_init →
  (∀ s who s', reachable s → sys_step who s = Some s' → P s → P s') →
  ∀ s, reachable s → P s.
Proof.
  intros Hinit Hstep s Hreach. unfold reachable in Hreach.
  revert s Hreach. apply rtc_ind_r; [done|].
  intros s s' Hreach Hst IH. destruct Hst as [who s s' Hwho]. by eapply Hstep.
Qed.

Lemma reachable_step s who s' :
  reachable s → sys_step who s = Some s' → reachable s'.
Proof. intros Hreach Hstep. eapply rtc_r; [done|]. by econstructor. Qed.

Lemma reachable_run schedule : ∀ s, reachable s → reachable (sys_run schedule s).
Proof.
  induction schedule as [|who schedule IH]; intros s Hreach; [done|].
  simpl. apply IH. destruct (sys_step who s) as [s'|] eqn:Hstep; [|done].
  by eapply reachable_step.
Qed.




(** C10.  The server derives its acknowledgment from whatever entry it
    takes, without looking at it: an entry that is itself an
    acknowledgment is acknowledged again.  There is an execution in
    which the client has not taken the acknowledgment of its first
    message, the server has taken it instead, and the queue holds the
    acknowledgment of that acknowledgment. *)
Theorem server_acknowledges_acknowledgments :
  (∀ entry q,
     (server_iteration (entry :: q)).1 = q ++ [acknowledgment entry]) ∧
  (∀ data q,
     (server_iteration (acknowledgment data :: q)).1 =
       q ++ ["Server acknowledged: Server acknowledged: " +:+ data]) ∧
  (∀ entry q,
     server_step SvGet (entry :: q) =
       Some (SvPut entry, q,
             [QGet Server entry; Log INFO ("Server received: " +:+ entry)])) ∧
  (∃ s,
     reachable s ∧
     client s = ClWait 0 ∧
     got_by Client (trace s) = [] ∧
     got_by Server (trace s) =
       [client_message 0; acknowledgment (client_message 0)] ∧
     queue s = [acknowledgment (acknowledgment (client_message 0))]).
Proof.
  split_and!; try done.
  exists (sys_run [Client; Server; Server; Server; Server; Server; Server]
                  sys_init).
  split; [apply reachable_run, rtc_refl|]. by vm_compute.
Qed.

(** *** The client *)


Lemma client_loop_in_range i :
  i < message_count →
  client_in_range (client_loop (S i)) ∧
  client_sent (client_loop (S i)) = S i ∧
  client_replies_bound (client_loop (S i)) ≥ S i.
Proof.
  unfold client_loop, message_count. intros Hi.
  case_decide; simpl; unfold message_count; lia.
Qed.

(** Under every interleaving, the client has put exactly the messages
    of the iterations it has begun, in order, and has taken at most one
    entry in each iteration it has finished. *)
Lemma client_progress s :
  reachable s →
  client_in_range (client s) ∧
  put_by Client (trace s) = client_message <$> seq 0 (client_sent (client s)) ∧
  length (got_by Client (trace s)) ≤ client_replies_bound (client s).
Proof.
  revert s. apply reachable_ind.
  { simpl. unfold client_loop, message_count. simpl. split_and!; [lia|done|lia]. }
  intros s1 who s2 _ Hstep (Hrange & Hput & Hgot).
  destruct who; simpl in Hstep.
  - assert (client s2 = client s1 ∧
            ∃ evs, trace s2 = trace s1 ++ evs ∧
                   put_by Client evs = [] ∧ got_by Client evs = [])
      as (-> & evs & -> & Hput' & Hgot').
    { destruct (server s1) as [| |data], (queue s1) as [|item q];
        simplify_eq/=; (split; [done|]); by eexists. }
    by rewrite put_by_app, got_by_app, Hput', Hgot', !app_nil_r.
  - destruct (client s1) as [i|i|i|i|] eqn:Hpc, (queue s1) as [|item q];
      simplify_eq/=; rewrite ?app_nil_r;
      rewrite ?put_by_app, ?got_by_app, ?length_app; simpl;
      rewrite ?app_nil_r;
      try (destruct (client_loop_in_range i Hrange) as (? & -> & ?));
      try (split_and!; [done|done|lia]).
    all: split_and!; [done| |lia].
    all: change (client_message 0 :: (client_message <$> seq 1 i))
           with (client_message <$> seq 0 (S i)).
    all: by rewrite Hput, seq_S, fmap_app.
Qed.


(** One pass through the body of the client loop: one [put], the wait,
    and one [get] exactly when the queue is not empty after the wait. *)
Lemma client_iteration_cases (wait : Channel → Channel) i q :
  client_iteration wait i q =
    match wait (q ++ [client_message i]) with
    | [] =>
        ([], [Log INFO ("Client sending: " +:+ client_message i);
              QPut Client (client_message i)])
    | response :: q' =>
        (q', [Log INFO ("Client sending: " +:+ client_message i);
              QPut Client (client_message i);
              QGet Client response;
              Log INFO ("Client received: " +:+ response)])
    end.
Proof.
  unfold client_iteration, queue_put.
  by destruct (wait (q ++ [client_message i])).
Qed.




End ChannelFacts.

(** * Further properties of the code *)

(** ** The registry, once more *)

Section RegistryRoundTrip.
Context `{Host}.
Implicit Types (m : Machine) (self : Framework) (name : string).

(** X1: [register_module] followed by a lookup: a name that is not yet
    registered is accepted, logged as registered, found afterwards with
    the module it was registered with, placed last in the iteration order
    of the registry, and no other name is affected. *)
Theorem register_then_lookup name module self m :
  name ∉ (modules self).*1 →
  ∃ self',
    register_module name module self m =
      (log_more [registered_report name] m, Ok self') ∧
    dict_contains name (modules self') = true ∧
    dict_get name (modules self') = Some module ∧
    (modules self').*1 = (modules self).*1 ++ [name] ∧
    length (modules self') = S (length (modules self)) ∧
    (∀ other, other ≠ name →
       dict_get other (modules self') = dict_get other (modules self)).
Proof.
  intros Hfresh. rewrite register_module_fresh by done.
  eexists. split; [done|]. simpl. split_and!.
  - apply dict_contains_true. rewrite fmap_app, elem_of_app. right.
    by apply list_elem_of_singleton.
  - rewrite dict_get_app, (proj2 (dict_get_None _ _) Hfresh). simpl.
    by rewrite decide_True.
  - by rewrite fmap_app.
  - rewrite length_app. simpl. lia.
  - intros other Hother. rewrite dict_get_app.
    destruct (dict_get other (modules self)); [done|]. simpl.
    by rewrite decide_False.
Qed.

(** X2: [run_module] on a registered module that has no [run] attribute
    raises, with the message Python gives for the missing attribute,
    before anything is called: the machine is as it was. *)
Theorem run_module_without_run self name args m module :
  dict_get name (modules self) = Some module →
  run module = None →
  run_module self name args m =
    (m, Raised (Exception ("module '" +:+ module_name module +:+
                           "' has no attribute 'run'"))).
Proof.
  intros Hget Hrun. unfold run_module.
  assert (name ∈ (modules self).*1) as Hin
    by (apply dict_get_is_Some; by rewrite Hget).
  rewrite (proj2 (dict_contains_true _ _) Hin). simpl.
  by rewrite Hget, Hrun.
Qed.

End RegistryRoundTrip.

(** ** Discovery, once more *)

Section DiscoveryEdges.
Context `{Host}.
Implicit Types (m : Machine) (self : Framework) (name : string).

Lemma StronglySorted_filter {A} (R : relation A) (P : A → Prop)
    `{∀ x, Decision (P x)} (l : list A) :
  StronglySorted R l → StronglySorted R (filter P l).
Proof.
  induction 1 as [|x l Hl IH Hx]; [constructor|].
  destruct (decide (P x)).
  - rewrite filter_cons_True by done. constructor; [done|].
    apply Forall_forall. intros y [_ Hy]%list_elem_of_filter.
    by eapply Forall_forall in Hx.
  - by rewrite filter_cons_False.
Qed.

(** The candidates of a listing depend on its candidate files only. *)
Lemma sorted_candidates_only (entries1 entries2 : list string) :
  filter is_orchestrator entries1 ≡ₚ filter is_orchestrator entries2 →
  filter is_orchestrator (sorted entries1) =
    filter is_orchestrator (sorted entries2).
Proof.
  intros Hperm.
  apply (StronglySorted_unique String.le).
  - apply StronglySorted_filter, (StronglySorted_merge_sort String.le).
  - apply StronglySorted_filter, (StronglySorted_merge_sort String.le).
  - by rewrite !sorted_Permutation.
Qed.

(** X3: Files that do not end in ".py" or do not contain "orchestrate" are
    never loaded: whatever such files a directory holds besides its
    candidates, and in whatever order it is listed, the scan of the module
    type does the same. *)
Theorem scan_ignores_other_files module_type self m1 m2 entries1 entries2 :
  fs m1 ("./" +:+ module_type) = Dir entries1 →
  fs m2 ("./" +:+ module_type) = Dir entries2 →
  filter is_orchestrator entries1 ≡ₚ filter is_orchestrator entries2 →
  world m1 = world m2 →
  events m1 = events m2 →
  (scan_module_type module_type self m1).2 =
    (scan_module_type module_type self m2).2 ∧
  world (scan_module_type module_type self m1).1 =
    world (scan_module_type module_type self m2).1 ∧
  events (scan_module_type module_type self m1).1 =
    events (scan_module_type module_type self m2).1.
Proof.
  intros Hdir1 Hdir2 Hperm Hworld Hevents.
  rewrite !scan_module_type_unfold, Hdir1, Hdir2.
  rewrite (sorted_candidates_only _ _ Hperm).
  destruct (load_names_total
              (module_name_of module_type <$>
                 filter is_orchestrator (sorted entries2)) self)
    as (logged & self' & Hload).
  rewrite !Hload. simpl. by rewrite Hworld, Hevents.
Qed.

(** X4: A module type whose path exists but cannot be listed stops discovery:
    the module types before it have been scanned, the exception of
    [os.listdir] leaves [auto_discover_and_register], and the module
    types after it are never looked at. *)
Theorem discovery_stops_at_unlistable_path self m before module_type after :
  module_types self = before ++ module_type :: after →
  fs m ("./" +:+ module_type) = NotDir →
  (∀ t, t ∈ before → fs m ("./" +:+ t) ≠ NotDir) →
  ∃ logged scanned,
    for_each before scan_module_type self m = (log_more logged m, Ok scanned) ∧
    auto_discover_and_register self m =
      (log_more logged m,
       Raised (Exception ("[Errno 20] Not a directory: './" +:+
                          module_type +:+ "'"))).
Proof.
  intros Htypes Hnotdir Hbefore. unfold auto_discover_and_register.
  rewrite Htypes, for_each_app, discover_listable by done.
  destruct (load_names_total (candidates (fs m) before) self)
    as (logged & scanned & Hload).
  exists logged, scanned. rewrite Hload. split; [done|].
  rewrite for_each_cons, scan_module_type_unfold. simpl.
  by rewrite Hnotdir.
Qed.

(** Loading candidates that are all registered already changes nothing
    in the registry. *)
Lemma reload_names names : ∀ self,
  (∀ name, name ∈ names → resolves name → name ∈ (modules self).*1) →
  ∃ logged, ∀ m,
    for_each names load_module_named self m = (log_more logged m, Ok self) ∧
    Forall (λ ev, is_error ev) logged ∧
    length logged = length names.
Proof.
  induction names as [|name names IH]; intros self Hreg.
  - exists []. intros m. by rewrite log_more_nil.
  - destruct (IH self) as (logged & Htl).
    { intros n Hn. apply Hreg. by right. }
    assert (∃ ev, is_error ev ∧
                  ∀ m, load_module_named name self m =
                         (log_more [ev] m, Ok self)) as (ev & Herr & Hhd).
    { destruct (import_module name) as [module|e] eqn:Himp.
      - exists (duplicate_report name). split; [done|]. intros m.
        rewrite (load_module_named_loaded _ _ _ _ Himp).
        apply register_module_present, Hreg; [by left|].
        unfold resolves. by rewrite Himp.
      - exists (load_failure_report name e). split; [done|]. intros m.
        by apply load_module_named_failure. }
    exists (ev :: logged). intros m.
    destruct (Htl (log_more [ev] m)) as (Hrun & Herrs & Hlen).
    rewrite for_each_cons, Hhd, Hrun, log_more_app.
    split_and!; [done|by constructor|simpl; by rewrite Hlen].
Qed.

(** X5: Discovery run a second time on the framework it has filled registers
    nothing new and overwrites nothing: the framework comes back as it
    was, and every candidate is answered with an error record, "already
    exists" for those that load and "Failed to load" for the others. *)
Theorem discovery_twice_changes_nothing (libs : SharedLibs) m m1 app :
  (∀ t, t ∈ module_types (new_framework libs) →
     fs m ("./" +:+ t) ≠ NotDir) →
  (∀ t entries, fs m ("./" +:+ t) = Dir entries → NoDup entries) →
  auto_discover_and_register (new_framework libs) m = (m1, Ok app) →
  ∃ logged,
    auto_discover_and_register app m1 = (log_more logged m1, Ok app) ∧
    Forall (λ ev, is_error ev) logged ∧
    length logged =
      length (candidates (fs m) (module_types (new_framework libs))).
Proof.
  intros Hlist Hlistings Hrun.
  rewrite discover_new_framework in Hrun by done.
  injection Hrun as <- <-.
  set (names := candidates (fs m) (module_types (new_framework libs))).
  destruct (reload_names names
              (set_modules (λ _, omap resolved names) (new_framework libs)))
    as (logged & Hreload).
  { intros name Hname Hres. simpl. rewrite keys_resolved.
    by apply list_elem_of_filter. }
  exists logged. unfold auto_discover_and_register.
  change (module_types (set_modules _ (new_framework libs)))
    with (module_types (new_framework libs)).
  rewrite discover_listable by (intros t Ht; by apply Hlist).
  apply Hreload.
Qed.

(** X6: On the module types of a new framework, two different candidate
    files never get the same module name, be they in one directory or in
    two: discovery from a new framework never meets a duplicate. *)
Theorem candidate_names_are_distinct (libs : SharedLibs) (files : FS) (w : World) :
  (∀ t entries, files ("./" +:+ t) = Dir entries → NoDup entries) →
  (∀ t, t ∈ module_types (new_framework libs) → files ("./" +:+ t) ≠ NotDir) →
  NoDup (candidates files (module_types (new_framework libs))) ∧
  ∀ name,
    duplicate_report name ∉
      events (auto_discover_and_register (new_framework libs)
                {| fs := files; world := w; events := [] |}).1.
Proof.
  intros Hlistings Hlist.
  destruct (new_framework_types libs) as [Hnodup Hdots].
  split; [by apply candidates_NoDup|].
  intros name.
  rewrite discover_new_framework by done. simpl.
  intros (n & Heq & _)%list_elem_of_fmap.
  unfold discovery_report in Heq. by destruct (import_module n).
Qed.

End DiscoveryEdges.

(** ** Startup, when it cannot go through *)

Section StartupEdges.
Context `{Host}.
Implicit Types (m : Machine) (app : Framework).

(** Loading candidates logs records and nothing else. *)
Lemma load_names_log_only names : ∀ self,
  ∃ logged self',
    (∀ m, for_each names load_module_named self m =
            (log_more logged m, Ok self')) ∧
    Forall (λ ev, ∃ lvl msg, ev = Log lvl msg) logged.
Proof.
  induction names as [|name names IH]; intros self.
  - exists [], self. split; [|done]. intros m. by rewrite log_more_nil.
  - assert (∃ lvl msg self1, ∀ m,
              load_module_named name self m =
                (log_more [Log lvl msg] m, Ok self1))
      as (lvl & msg & self1 & Hhd).
    { destruct (import_module name) as [module|e] eqn:Himp.
      - destruct (decide (name ∈ (modules self).*1)).
        + eexists _, _, _. intros m.
          rewrite (load_module_named_loaded _ _ _ _ Himp).
          by apply register_module_present.
        + eexists _, _, _. intros m.
          rewrite (load_module_named_loaded _ _ _ _ Himp).
          by apply register_module_fresh.
      - eexists _, _, _. intros m. by apply load_module_named_failure. }
    destruct (IH self1) as (logged & self' & Htl & Hlogs).
    exists (Log lvl msg :: logged), self'. split.
    + intros m. by rewrite for_each_cons, Hhd, Htl, log_more_app.
    + constructor; [by eexists _, _|done].
Qed.

(** X7: When the database cannot be opened, [titanoboa] logs the error and
    leaves with [sys.exit(1)]: the orchestrators have been generated, but
    no framework is built, nothing is discovered, no thread is started and
    no unit is called. *)
Theorem titanoboa_stops_without_database project_name m e files generated :
  sqlite3_connect "app.db" = inr e →
  generate_orchestrators "./" (fs m) = (files, generated) →
  titanoboa project_name m =
    ({| fs := files;
        world := world m;
        events :=
          events m ++
          [Log INFO ("Initializing project: " +:+ project_name)] ++
          (uncurry Log <$> generated) ++
          [Log INFO "Setting up logger...";
           Log ERROR ("Error connecting to the database: " +:+ e)] |},
     Raised (SystemExit 1)).
Proof.
  intros Hconn Hgen.
  unfold titanoboa, SharedLibs_init, setup_database.
  unfold run_generate_orchestrators.
  unfold logging_info, logging_error, emit, raise, mbind, M_bind. simpl.
  rewrite Hgen, Hconn. simpl. unfold log_more. simpl.
  by rewrite <-!app_assoc.
Qed.

(** X8: When the path of a module type exists but cannot be listed,
    [titanoboa] ends with the exception of [os.listdir] before any thread
    is started and before any unit is called: all it has done by then is
    log. *)
Theorem titanoboa_stops_at_unlistable_path
    project_name m conn files generated before module_type after :
  sqlite3_connect "app.db" = inl conn →
  generate_orchestrators "./" (fs m) = (files, generated) →
  ["models"; "controllers"; "services"; "utils"; "security"] =
    before ++ module_type :: after →
  files ("./" +:+ module_type) = NotDir →
  (∀ t, t ∈ before → files ("./" +:+ t) ≠ NotDir) →
  ∃ logged,
    titanoboa project_name m =
      ({| fs := files; world := world m; events := events m ++ logged |},
       Raised (Exception ("[Errno 20] Not a directory: './" +:+
                          module_type +:+ "'"))) ∧
    Forall (λ ev, ∃ lvl msg, ev = Log lvl msg) logged.
Proof.
  intros Hconn Hgen Htypes Hnotdir Hbefore.
  unfold titanoboa, SharedLibs_init, setup_database, Framework_init.
  unfold run_generate_orchestrators.
  unfold logging_info, emit, mbind, M_bind, mret, M_ret. simpl.
  rewrite Hgen, Hconn. simpl.
  set (libs := {| security_manager := generate_key; db_connection := conn |}).
  match goal with
  | |- context [auto_discover_and_register _ ?m0] => set (m1 := m0)
  end.
  unfold auto_discover_and_register.
  change (module_types (new_framework libs)) with
    ["models"; "controllers"; "services"; "utils"; "security"].
  rewrite Htypes, for_each_app.
  rewrite discover_listable by (intros t Ht; by apply Hbefore).
  destruct (load_names_log_only (candidates (fs m1) before) (new_framework libs))
    as (logged & scanned & Hload & Hlogs).
  rewrite Hload, for_each_cons, scan_module_type_unfold.
  change (fs (log_more logged m1)) with files. rewrite Hnotdir.
  eexists. split.
  - unfold log_more, m1. simpl. rewrite <-!app_assoc. reflexivity.
  - repeat first [apply Forall_app; split | apply Forall_cons; split
                 | apply Forall_nil_2 | done | by eexists _, _].
    apply Forall_fmap, Forall_forall. intros [lvl msg] _. by eexists _, _.
Qed.

End StartupEdges.

(** ** The channel, once more *)

Section ChannelInvariants.
Implicit Types (q : Channel) (s : Sys) (who : Role).

Lemma wrapped_message_client i :
  i < message_count → wrapped_message (client_message i).
Proof. intros Hi. by exists 0, i. Qed.

Lemma wrapped_message_acknowledgment item :
  wrapped_message item → wrapped_message (acknowledgment item).
Proof. intros (k & i & Hi & ->). by exists (S k), i. Qed.

(** Under every interleaving, every message the client has put is in
    exactly one place: in the queue, in the hands of the server, or taken
    back by the client; the acknowledgments of the server replace entries
    and add none. *)
Lemma entries_are_conserved s :
  reachable s →
  length (queue s) + length (held (server s)) +
    length (got_by Client (trace s)) =
  length (put_by Client (trace s)).
Proof.
  revert s. apply reachable_ind; [done|].
  intros s1 who s2 _ Hstep IH. destruct who; simpl in Hstep.
  - destruct (server s1) as [| |data] eqn:Hpc, (queue s1) as [|item q];
      simplify_eq/=; rewrite ?put_by_app, ?got_by_app, ?length_app in *;
      simpl in *; rewrite ?length_app in *; simpl in *; lia.
  - destruct (client s1) as [i|i|i|i|] eqn:Hpc, (queue s1) as [|item q];
      simplify_eq/=; rewrite ?put_by_app, ?got_by_app, ?length_app in *;
      simpl in *; rewrite ?length_app in *; simpl in *; lia.
Qed.

(** X9: The queue is unbounded, but the two threads never have more than
    five entries in it: under every interleaving the queue holds at most
    as many entries as the client has sent messages and not taken replies
    for. *)
Theorem queue_never_exceeds_message_count s :
  reachable s →
  length (queue s) + length (held (server s)) +
    length (got_by Client (trace s)) =
  client_sent (client s) ∧
  length (queue s) ≤ message_count.
Proof.
  intros Hreach.
  pose proof (entries_are_conserved s Hreach) as Hcons.
  destruct (client_progress s Hreach) as (Hrange & Hput & _).
  rewrite Hput, length_fmap, length_seq in Hcons. split; [done|].
  assert (client_sent (client s) ≤ message_count); [|lia].
  destruct (client s); simpl in *; lia.
Qed.

Local Ltac solve_wrapped :=
  repeat match goal with
         | H : Forall _ (_ :: _) |- _ => apply Forall_cons_1 in H as [??]
         end;
  repeat first
    [ done
    | apply Forall_nil_2
    | apply Forall_app; split
    | apply Forall_cons; split
    | by apply wrapped_message_acknowledgment
    | by apply wrapped_message_client ].

(** X10: Under every interleaving, every entry of the queue, every entry the
    server holds and every reply the client has taken is one of the five
    messages of the client under some number of acknowledgments: the
    client may get back its own message, or an acknowledgment of an
    acknowledgment. *)
Theorem entries_are_wrapped_messages s :
  reachable s →
  Forall wrapped_message (queue s) ∧
  Forall wrapped_message (held (server s)) ∧
  Forall wrapped_message (got_by Client (trace s)).
Proof.
  revert s. apply reachable_ind; [by split_and!|].
  intros s1 who s2 Hreach Hstep (Hq & Hheld & Hgot).
  destruct (client_progress s1 Hreach) as (Hrange & _ & _).
  destruct who; simpl in Hstep.
  - destruct (server s1) as [| |data] eqn:Hpc, (queue s1) as [|item q];
      simplify_eq/=; rewrite ?got_by_app, ?app_nil_r; simpl;
      rewrite ?app_nil_r; split_and!; solve_wrapped.
  - destruct (client s1) as [i|i|i|i|] eqn:Hpc, (queue s1) as [|item q];
      simplify_eq/=; rewrite ?got_by_app, ?app_nil_r; simpl;
      rewrite ?app_nil_r; split_and!; solve_wrapped.
Qed.

(** X11: The server alone with one entry: every pass through the loop body
    takes the entry and puts it back under one more acknowledgment, so
    that after [fuel] passes the queue holds one entry, 21 characters
    longer per pass. *)
Theorem run_server_wraps_forever fuel : ∀ item,
  (run_server fuel [item]).1 = [Nat.iter fuel acknowledgment item] ∧
  String.length (Nat.iter fuel acknowledgment item) =
    String.length item + 21 * fuel.
Proof.
  induction fuel as [|fuel IH]; intros item.
  - split; [done|]. simpl. lia.
  - change (run_server (S fuel) [item]) with
      (let '(q2, evs2) := run_server fuel [acknowledgment item] in
       (q2, [QGet Server item; Log INFO ("Server received: " +:+ item);
             QPut Server (acknowledgment item)] ++ evs2)).
    destruct (IH (acknowledgment item)) as [Hq Hlen].
    destruct (run_server fuel [acknowledgment item]) as [q2 evs2].
    simpl in Hq. rewrite Nat.iter_succ_r. split; [done|].
    rewrite Hlen. unfold acknowledgment. rewrite string_app_length.
    simpl. lia.
Qed.

(** The client alone, with nobody touching the queue while it waits: in
    each iteration it takes the oldest entry of the queue, which on a
    queue that starts empty is the message it has just put. *)
Lemma client_iterations_alone indices : ∀ q evs,
  let result :=
    foldl (λ '(q, evs) i,
             let '(q', evs') := client_iteration (λ q, q) i q in
             (q', evs ++ evs'))
          (q, evs) indices in
  result.1 = drop (length indices) (q ++ (client_message <$> indices)) ∧
  got_by Client result.2 =
    got_by Client evs ++
    take (length indices) (q ++ (client_message <$> indices)).
Proof.
  induction indices as [|i indices IH]; intros q evs.
  - simpl. by rewrite !app_nil_r.
  - cbn [foldl length]. rewrite fmap_cons, client_iteration_cases.
    assert (q ++ client_message i :: (client_message <$> indices) =
            (q ++ [client_message i]) ++ (client_message <$> indices)) as ->
      by (by rewrite <-app_assoc).
    destruct (q ++ [client_message i]) as [|response q1] eqn:Hq.
    { by destruct q. }
    destruct (IH q1 (evs ++
                [Log INFO ("Client sending: " +:+ client_message i);
                 QPut Client (client_message i); QGet Client response;
                 Log INFO ("Client received: " +:+ response)]))
      as [IHq IHgot].
    cbv zeta in IHq, IHgot. cbv zeta. rewrite IHq, IHgot, got_by_app.
    rewrite <-app_comm_cons. cbn [drop take]. split; [done|].
    by rewrite <-app_assoc.
Qed.

(** X12: The client with no server running, whatever the queue holds at the
    start: each of its five iterations puts a message at the back and
    takes the oldest entry from the front, so the replies it logs are
    the first five entries of the queue followed by its messages, and on
    a queue that starts empty each reply is the message just sent. *)
Theorem run_client_alone_takes_oldest q :
  (run_client (λ _ q, q) q).1 =
    drop message_count (q ++ (client_message <$> seq 0 message_count)) ∧
  got_by Client (run_client (λ _ q, q) q).2 =
    take message_count (q ++ (client_message <$> seq 0 message_count)) ∧
  (q = [] →
   got_by Client (run_client (λ _ q, q) q).2 =
     put_by Client (run_client (λ _ q, q) q).2).
Proof.
  destruct (client_iterations_alone (seq 0 message_count) q []) as [Hq Hgot].
  rewrite length_seq in Hq, Hgot.
  split_and!; [exact Hq|exact Hgot|].
  intros ->. by vm_compute.
Qed.

(** Once the client has ended and the server waits in [get] on an empty
    queue, no thread moves any more. *)
Lemma nothing_moves_after s :
  client s = ClDone → queue s = [] → server s = SvGet →
  ∀ schedule, sys_run schedule s = s.
Proof.
  intros Hclient Hqueue Hserver schedule.
  induction schedule as [|who schedule IH]; [done|].
  cbn [sys_run].
  assert (sys_step who s = None) as ->; [|exact IH].
  destruct who; unfold sys_step; by rewrite ?Hclient, ?Hserver, Hqueue.
Qed.

(** X13: The server tests the queue and takes from it in two steps, and the
    client can take the entry in between: there is an execution after
    which the client has ended, the queue is empty and the server waits in
    [get]; from then on no thread ever moves. *)
Theorem server_can_wait_forever :
  ∃ s,
    reachable s ∧
    client s = ClDone ∧ queue s = [] ∧ server s = SvGet ∧
    ∀ schedule, sys_run schedule s = s.
Proof.
  exists (sys_run (replicate 16 Client ++
                   [Client; Client; Server; Client; Client]) sys_init).
  split; [apply reachable_run, rtc_refl|].
  assert (client (sys_run (replicate 16 Client ++
                   [Client; Client; Server; Client; Client]) sys_init) = ClDone)
    as Hclient by (by vm_compute).
  assert (queue (sys_run (replicate 16 Client ++
                   [Client; Client; Server; Client; Client]) sys_init) = [])
    as Hqueue by (by vm_compute).
  assert (server (sys_run (replicate 16 Client ++
                   [Client; Client; Server; Client; Client]) sys_init) = SvGet)
    as Hserver by (by vm_compute).
  split_and!; [exact Hclient|exact Hqueue|exact Hserver|].
  by apply nothing_moves_after.
Qed.

End ChannelInvariants.

(** ** The generator of orchestrators *)

Section GeneratorFacts.
Import Generator.
Implicit Types (s t pat file folder_name root : string).

Lemma prefix_app pat t : String.prefix pat (pat +:+ t) = true.
Proof.
  induction pat as [|c pat IH]; [by destruct t|].
  rewrite string_app_cons. simpl.
  destruct (Ascii.ascii_dec c c); [done|congruence].
Qed.

Lemma contains_cons pat c s :
  Str.contains pat s = true → Str.contains pat (String c s) = true.
Proof.
  intros Hs.
  change (Str.contains pat (String c s)) with
    (String.prefix pat (String c s) || Str.contains pat s).
  rewrite Hs. apply orb_true_r.
Qed.

Lemma contains_prefix pat s :
  String.prefix pat s = true → Str.contains pat s = true.
Proof.
  intros Hp. destruct s as [|c s].
  - change (Str.contains pat "") with (String.prefix pat "" || false).
    by rewrite Hp.
  - change (Str.contains pat (String c s)) with
      (String.prefix pat (String c s) || Str.contains pat s).
    by rewrite Hp.
Qed.

(** A string contains what stands in its middle. *)
Lemma contains_app s pat t : Str.contains pat (s +:+ pat +:+ t) = true.
Proof.
  induction s as [|c s IH].
  - rewrite string_app_nil_l. apply contains_prefix, prefix_app.
  - rewrite string_app_cons. by apply contains_cons.
Qed.

Lemma substring_app_suffix s t :
  String.substring (String.length s) (String.length t) (s +:+ t) = t.
Proof.
  induction s as [|c s IH].
  - rewrite string_app_nil_l. apply substring_all.
  - rewrite string_app_cons. simpl. apply IH.
Qed.

(** A string ends with what stands at its end. *)
Lemma endswith_app s suffix : Str.endswith (s +:+ suffix) suffix = true.
Proof.
  unfold Str.endswith. rewrite string_app_length.
  apply andb_true_intro. split; apply bool_decide_eq_true; [lia|].
  replace (String.length s + String.length suffix - String.length suffix)
    with (String.length s) by lia.
  apply substring_app_suffix.
Qed.

Lemma drop_last_app s suffix :
  Str.drop_last (String.length suffix) (s +:+ suffix) = s.
Proof.
  apply (string_app_inj_r _ _ suffix). symmetry.
  apply endswith_split, endswith_app.
Qed.

Lemma orchestrator_name_shape folder_name (py_files : list string) :
  ∃ number,
    number = default "" (head (split_on "_" folder_name)) ∧
    orchestrator_name_of folder_name py_files =
      (number +:+ "_orchestrate_" +:+ pretty (length py_files)) +:+ ".py" ∧
    orchestrator_name_of folder_name py_files =
      (number +:+ "_") +:+ "orchestrate" +:+
      ("_" +:+ pretty (length py_files) +:+ ".py").
Proof.
  eexists. split; [done|]. unfold orchestrator_name_of.
  split; by rewrite !string_app_assoc.
Qed.

Lemma orchestrator_name_marks folder_name (py_files : list string) :
  Str.endswith (orchestrator_name_of folder_name py_files) ".py" = true ∧
  Str.contains "orchestrate" (orchestrator_name_of folder_name py_files) = true.
Proof.
  destruct (orchestrator_name_shape folder_name py_files)
    as (number & -> & Hpy & Hmark).
  split; [rewrite Hpy; apply endswith_app|rewrite Hmark; apply contains_app].
Qed.

Lemma orchestrator_name_not_unit_file folder_name (py_files : list string) :
  is_unit_file (orchestrator_name_of folder_name py_files) = false.
Proof.
  destruct (orchestrator_name_marks folder_name py_files) as [Hends Hcontains].
  unfold is_unit_file. by rewrite Hends, Hcontains.
Qed.

(** X14: The file [generate_orchestrators] writes in a directory is one that
    discovery takes for a candidate, whatever the directory is called and
    however many unit files it holds, and never one that a later run of
    the generator counts as a unit file; discovery in the module type [t]
    would load it under the name "<t>.<number>_orchestrate_<count>".  A
    file that ends in ".py" is a unit file for the generator or a
    candidate for discovery, and never both. *)
Theorem generated_file_is_a_candidate folder_name (py_files : list string) :
  is_orchestrator (orchestrator_name_of folder_name py_files) = true ∧
  is_unit_file (orchestrator_name_of folder_name py_files) = false ∧
  (∀ t, module_name_of t (orchestrator_name_of folder_name py_files) =
          t +:+ "." +:+ default "" (head (split_on "_" folder_name)) +:+
          "_orchestrate_" +:+ pretty (length py_files)) ∧
  (∀ file, Str.endswith file ".py" = true →
           is_unit_file file = negb (is_orchestrator file)).
Proof.
  destruct (orchestrator_name_shape folder_name py_files)
    as (number & -> & Hpy & Hmark).
  destruct (orchestrator_name_marks folder_name py_files) as [Hends Hcontains].
  split_and!.
  - unfold is_orchestrator. by rewrite Hends, Hcontains.
  - apply orchestrator_name_not_unit_file.
  - intros t. unfold module_name_of. rewrite Hpy.
    rewrite (drop_last_app _ ".py"). by rewrite ?string_app_assoc.
  - intros file Hfile. unfold is_unit_file, is_orchestrator. rewrite Hfile.
    by destruct (Str.contains "orchestrate" file).
Qed.

Lemma contains_char_nil sep : Str.contains (String sep "") "" = false.
Proof. reflexivity. Qed.

Lemma contains_char_cons sep c s :
  Str.contains (String sep "") (String c s) =
    bool_decide (c = sep) || Str.contains (String sep "") s.
Proof.
  change (Str.contains (String sep "") (String c s)) with
    ((if Ascii.ascii_dec sep c then String.prefix "" s else false)
     || Str.contains (String sep "") s).
  destruct (Ascii.ascii_dec sep c) as [->|Hne].
  - rewrite bool_decide_eq_true_2 by done. by destruct s.
  - by rewrite bool_decide_eq_false_2 by congruence.
Qed.

Lemma split_on_cons sep c s :
  split_on sep (String c s) =
    if decide (c = sep) then "" :: split_on sep s
    else match split_on sep s with
         | part :: parts => String c part :: parts
         | [] => [String c ""]
         end.
Proof. reflexivity. Qed.

(** [split] of a string without the separator: the string itself. *)
Lemma split_on_without sep s :
  Str.contains (String sep "") s = false → split_on sep s = [s].
Proof.
  induction s as [|c s IH]; [done|].
  rewrite contains_char_cons, split_on_cons.
  intros [Hc Hs]%orb_false_elim. apply bool_decide_eq_false in Hc.
  rewrite decide_False by done. by rewrite IH.
Qed.

Lemma split_on_nonempty sep s : ∃ part parts, split_on sep s = part :: parts.
Proof.
  induction s as [|c s IH]; [by eexists _, _|].
  rewrite split_on_cons. case_decide; [by eexists _, _|].
  destruct IH as (part & parts & ->). by eexists _, _.
Qed.

(** [split] of a string with the separator: two parts at least. *)
Lemma split_on_with sep s :
  Str.contains (String sep "") s = true →
  ∃ part1 part2 parts, split_on sep s = part1 :: part2 :: parts.
Proof.
  induction s as [|c s IH]; [done|].
  rewrite contains_char_cons, split_on_cons. intros Hor.
  destruct (decide (c = sep)) as [->|Hne].
  - destruct (split_on_nonempty sep s) as (part & parts & ->).
    by eexists _, _, _.
  - rewrite bool_decide_eq_false_2 in Hor by done.
    destruct (IH Hor) as (part1 & part2 & parts & ->). by eexists _, _, _.
Qed.

(** X15: What the generator does in a directory that holds unit files turns on
    the name of the directory.  Without an underscore in the name, the
    file is created with the three lines of the header and nothing else,
    the error "list index out of range" is logged, and the file is named
    after the whole directory name; with an underscore, the file gets the
    header and the body written for the part of the name after the first
    underscore, and the success is logged.  Either way one record is
    logged for the directory. *)
Theorem generate_in_turns_on_underscore root dirnames files :
  let py_files := filter (λ f, is_unit_file f) files.*1 in
  let folder_name := basename root in
  let name := orchestrator_name_of folder_name py_files in
  py_files ≠ [] →
  name ∉ dirnames →
  (Str.contains "_" folder_name = false →
   name = folder_name +:+ "_orchestrate_" +:+ pretty (length py_files) +:+ ".py" ∧
   generate_in root dirnames files =
     (write_file name (text_header folder_name) files,
      [Log ERROR "Failed to create orchestrator: list index out of range"])) ∧
  (Str.contains "_" folder_name = true →
   ∃ function_name,
     split_on "_" folder_name !! 1 = Some function_name ∧
     generate_in root dirnames files =
       (write_file name
          (text_header folder_name +:+
           text_body folder_name function_name py_files) files,
        [Log INFO ("Orchestrator " +:+ name +:+ " generated successfully.")])).
Proof.
  intros py_files folder_name name Hpy Hdir.
  unfold generate_in. fold py_files folder_name name.
  destruct py_files as [|py_file py_files'] eqn:Hfiles; [done|].
  rewrite bool_decide_eq_false_2 by done. split.
  - intros Hno. split.
    + unfold name, orchestrator_name_of.
      by rewrite (split_on_without _ _ Hno).
    + by rewrite (split_on_without _ _ Hno).
  - intros Hyes.
    destruct (split_on_with _ _ Hyes) as (part1 & part2 & parts & Hsplit).
    exists part2. by rewrite Hsplit.
Qed.

Lemma write_file_cons name text name' text' files :
  write_file name text ((name', text') :: files) =
    if decide (name' = name) then (name, text) :: files
    else (name', text') :: write_file name text files.
Proof. reflexivity. Qed.

Lemma write_file_names name text files :
  (write_file name text files).*1 =
    if bool_decide (name ∈ files.*1) then files.*1 else files.*1 ++ [name].
Proof.
  induction files as [|[name' text'] files IH]; [done|].
  rewrite write_file_cons, !fmap_cons. cbn [fst].
  destruct (decide (name' = name)) as [->|Hne].
  - rewrite bool_decide_eq_true_2 by left. done.
  - rewrite fmap_cons, IH. cbn [fst].
    destruct (decide (name ∈ files.*1)).
    + rewrite !bool_decide_eq_true_2; [done|by right|done].
    + rewrite !bool_decide_eq_false_2; [done| |done].
      rewrite not_elem_of_cons. split; [congruence|done].
Qed.

Lemma write_file_other name text files other text' :
  other ≠ name →
  (other, text') ∈ files → (other, text') ∈ write_file name text files.
Proof.
  intros Hne. induction files as [|[name0 text0] files IH].
  - by intros ?%elem_of_nil.
  - rewrite write_file_cons. intros [Heq|Hin]%elem_of_cons.
    + injection Heq as <- <-. rewrite decide_False by done. left.
    + case_decide; right; [done|by apply IH].
Qed.

Lemma write_file_twice name text files :
  write_file name text (write_file name text files) =
    write_file name text files.
Proof.
  induction files as [|[name0 text0] files IH].
  - change (write_file name text []) with [(name, text)].
    by rewrite write_file_cons, decide_True.
  - rewrite write_file_cons. destruct (decide (name0 = name)) as [->|Hne].
    + by rewrite write_file_cons, decide_True.
    + by rewrite write_file_cons, decide_False, IH.
Qed.

Lemma write_file_over name text text0 files :
  write_file name text (write_file name text0 files) =
    write_file name text files.
Proof.
  induction files as [|[name1 text1] files IH].
  - change (write_file name text0 []) with [(name, text0)].
    by rewrite write_file_cons, decide_True.
  - rewrite !write_file_cons. destruct (decide (name1 = name)) as [->|Hne].
    + by rewrite write_file_cons, decide_True.
    + by rewrite write_file_cons, decide_False, IH.
Qed.

Lemma write_file_unit_files name text files :
  is_unit_file name = false →
  filter (λ f, is_unit_file f) (write_file name text files).*1 =
    filter (λ f, is_unit_file f) files.*1.
Proof.
  intros Hname. rewrite write_file_names. case_bool_decide; [done|].
  rewrite filter_app, filter_cons_False, filter_nil, app_nil_r; [done|].
  rewrite Hname. intros [].
Qed.

(** X16: The generator in one directory: it logs at most one record, leaves
    every file that was there under its name, writes at most one file, and
    that file is never a unit file: the unit files are after the run what
    they were before it, text and all. *)
Theorem generate_in_spares_unit_files root dirnames files :
  length (generate_in root dirnames files).2 ≤ 1 ∧
  files.*1 ⊆ (generate_in root dirnames files).1.*1 ∧
  length (generate_in root dirnames files).1 ≤ S (length files) ∧
  filter (λ f, is_unit_file f) (generate_in root dirnames files).1.*1 =
    filter (λ f, is_unit_file f) files.*1 ∧
  (∀ file text,
     is_unit_file file = true →
     (file, text) ∈ files →
     (file, text) ∈ (generate_in root dirnames files).1).
Proof.
  set (py_files := filter (λ f, is_unit_file f) files.*1).
  set (name := orchestrator_name_of (basename root) py_files).
  pose proof (orchestrator_name_not_unit_file (basename root) py_files)
    as Hnot_unit. fold name in Hnot_unit.
  assert (∀ text,
            length (write_file name text files) ≤ S (length files) ∧
            files.*1 ⊆ (write_file name text files).*1 ∧
            filter (λ f, is_unit_file f) (write_file name text files).*1 =
              py_files ∧
            (∀ file text',
               is_unit_file file = true →
               (file, text') ∈ files →
               (file, text') ∈ write_file name text files)) as Hwrite.
  { intros text. split_and!.
    - rewrite <-(length_fmap fst), write_file_names.
      case_bool_decide; rewrite ?length_app, !length_fmap; simpl; lia.
    - rewrite write_file_names. case_bool_decide; [done|].
      intros x Hx. apply elem_of_app. by left.
    - by apply write_file_unit_files.
    - intros file text' Hunit Hin. apply write_file_other; [|done].
      intros ->. congruence. }
  unfold generate_in. fold py_files. fold name.
  destruct py_files as [|py_file py_files'] eqn:Hpy.
  { simpl. split_and!; [lia|done|lia|done|done]. }
  case_bool_decide.
  { simpl. split_and!; [lia|done|lia|done|done]. }
  destruct (split_on "_" (basename root) !! 1); simpl;
    destruct (Hwrite (text_header (basename root))) as (? & ? & ? & ?);
    (split_and!; [lia|try done..]).
  all: by destruct (Hwrite (text_header (basename root) +:+
                            text_body (basename root) s (py_file :: py_files')))
         as (? & ? & ? & ?).
Qed.

Lemma Tree_induction (P : Tree → Prop) :
  (∀ files dirs, Forall (λ d, P d.2) dirs → P (Folder files dirs)) →
  ∀ tree, P tree.
Proof.
  intros Hstep. fix IH 1. intros [files dirs]. apply Hstep.
  induction dirs as [|[name sub] dirs IHdirs]; constructor;
    [apply IH|apply IHdirs].
Qed.

Lemma generate_walk_unfold root files dirs :
  generate_walk root (Folder files dirs) =
    (Folder (generate_in root dirs.*1 files).1
       ((λ d, (d.1, (generate_walk (path_join root d.1) d.2).1)) <$> dirs),
     (generate_in root dirs.*1 files).2 ++
     mjoin ((λ d, (generate_walk (path_join root d.1) d.2).2) <$> dirs)).
Proof.
  cbn [generate_walk]. by rewrite <-!list_fmap_compose.
Qed.

Lemma generate_in_twice root dirnames files :
  generate_in root dirnames (generate_in root dirnames files).1 =
    generate_in root dirnames files.
Proof.
  set (py_files := filter (λ f, is_unit_file f) files.*1).
  set (name := orchestrator_name_of (basename root) py_files).
  pose proof (orchestrator_name_not_unit_file (basename root) py_files)
    as Hnot_unit. fold name in Hnot_unit.
  assert (∀ text log,
            generate_in root dirnames files =
              (write_file name text files, log) →
            generate_in root dirnames (write_file name text files) =
              (write_file name text files, log)) as Hwrite.
  { intros text log Hgen. unfold generate_in in *.
    rewrite write_file_unit_files by done.
    fold py_files in Hgen |- *. fold name in Hgen |- *.
    destruct py_files as [|py_file py_files'];
      [by injection Hgen as _ <-|].
    case_bool_decide; [by injection Hgen as _ <-|].
    destruct (split_on "_" (basename root) !! 1);
      injection Hgen as Hfiles <-; by rewrite write_file_over, Hfiles. }
  destruct (generate_in root dirnames files) as [files1 log1] eqn:Hgen.
  cbn [fst].
  assert (files1 = files ∨ ∃ text, files1 = write_file name text files)
    as [->| [text ->]]; [|done|by apply Hwrite].
  unfold generate_in in Hgen. fold py_files in Hgen. fold name in Hgen.
  destruct py_files as [|py_file py_files'];
    [injection Hgen as <- <-; by left|].
  case_bool_decide; [injection Hgen as <- <-; by left|].
  destruct (split_on "_" (basename root) !! 1);
    injection Hgen as <- <-; right; eauto.
Qed.

Lemma generate_walk_twice (tree : Tree) : ∀ root,
  generate_walk root (generate_walk root tree).1 = generate_walk root tree.
Proof.
  induction tree as [files dirs IH] using Tree_induction. intros root.
  rewrite (generate_walk_unfold root files dirs). cbn [fst].
  rewrite generate_walk_unfold.
  rewrite <-!list_fmap_compose.
  assert ((fst ∘ (λ d : string * Tree,
                    (d.1, (generate_walk (path_join root d.1) d.2).1))) <$> dirs
          = dirs.*1) as ->.
  { clear IH. induction dirs as [|d dirs IHd]; [done|].
    rewrite !fmap_cons. by f_equal. }
  rewrite generate_in_twice.
  f_equal; [f_equal|f_equal; f_equal];
    (induction IH as [|d dirs Hd _ IHdirs]; [done|]);
    rewrite !fmap_cons; f_equal; try done; cbn; by rewrite Hd.
Qed.

(** X17: Running the generator again changes nothing: the second run finds
    the same unit files in every directory (the files of the first run are
    no unit files), writes the same files with the same text, and logs the
    same records.  A directory is taken to list the files it had in the
    order it listed them before the new file was written. *)
Theorem generate_orchestrators_twice (base_dir : string) (tree : Tree) :
  Generator.generate_orchestrators base_dir
    (Generator.generate_orchestrators base_dir tree).1 =
  Generator.generate_orchestrators base_dir tree.
Proof.
  unfold Generator.generate_orchestrators.
  pose proof (generate_walk_twice tree base_dir) as Htwice.
  destruct (generate_walk base_dir tree) as [tree1 logged1]. cbn [fst] in *.
  by rewrite Htwice.
Qed.

Lemma generate_orchestrators_tree base_dir (tree : Tree) :
  (Generator.generate_orchestrators base_dir tree).1 =
    (generate_walk base_dir tree).1.
Proof.
  unfold Generator.generate_orchestrators.
  by destruct (generate_walk base_dir tree).
Qed.

Lemma path_join_working_directory name :
  Str.contains "/" name = false → path_join "./" name = "./" +:+ name.
Proof.
  intros Hname. unfold path_join. destruct name as [|c name]; [done|].
  rewrite contains_char_cons in Hname.
  apply orb_false_elim in Hname as [Hc%bool_decide_eq_false _].
  cbn [String.prefix]. by destruct (Ascii.ascii_dec "/" c).
Qed.

Lemma basename_working_directory name :
  Str.contains "/" name = false → basename ("./" +:+ name) = name.
Proof.
  intros Hname. unfold basename.
  change ("./" +:+ name) with (String "." (String "/" name)).
  rewrite split_on_cons, decide_False by done.
  rewrite split_on_cons, decide_True by done.
  by rewrite split_on_without.
Qed.

Lemma as_files_entry (tree : Tree) name :
  as_files tree ("./" +:+ name) = entry_node tree name.
Proof.
  unfold as_files. rewrite prefix_app, string_app_length.
  change (String.length "./") with 2.
  replace (2 + String.length name - 2) with (String.length name) by lia.
  pose proof (substring_app_suffix "./" name) as Hsub.
  change (String.length "./") with 2 in Hsub. by rewrite Hsub.
Qed.

Lemma list_find_walk (g : string * Tree → Tree) dirs name :
  list_find (λ d : string * Tree, d.1 = name) ((λ d, (d.1, g d)) <$> dirs) =
    (λ r, (r.1, (r.2.1, g r.2))) <$>
      list_find (λ d : string * Tree, d.1 = name) dirs.
Proof.
  induction dirs as [|d dirs IH]; [done|].
  rewrite fmap_cons. cbn [list_find fst]. case_decide; [done|].
  rewrite IH. by destruct (list_find _ dirs) as [[i d']|].
Qed.

Lemma generate_in_lists_orchestrator root dirnames files :
  filter (λ f, is_unit_file f) files.*1 ≠ [] →
  orchestrator_name_of (basename root)
    (filter (λ f, is_unit_file f) files.*1) ∈
    (generate_in root dirnames files).1.*1 ++ dirnames.
Proof.
  intros Hpy. unfold generate_in.
  set (py_files := filter (λ f, is_unit_file f) files.*1) in *.
  set (name := orchestrator_name_of (basename root) py_files).
  destruct py_files as [|py_file py_files']; [done|].
  apply elem_of_app. case_bool_decide; [by right|left].
  destruct (split_on "_" (basename root) !! 1); cbn [fst];
    rewrite write_file_names; case_bool_decide; [done| |done|];
    apply elem_of_app; right; apply list_elem_of_singleton; done.
Qed.

(** X18: The generator and discovery together, as [titanoboa] runs them.  Once
    the generator has walked the working directory, the orchestrator of
    every module-type directory that holds a unit file is among the
    candidates discovery tries to load, under the name
    "<type>.<first part of type>_orchestrate_<count>": the generator has
    written it there, or an entry of that name was there before. *)
Theorem generated_orchestrator_is_discovered (tree : Tree)
    (types : list string) (module_type : string) (sub : Tree) (i : nat) :
  module_type ∈ types →
  Str.contains "/" module_type = false →
  list_find (λ d : string * Tree, d.1 = module_type) (tree_dirs tree) =
    Some (i, (module_type, sub)) →
  filter (λ f, is_unit_file f) (tree_files sub).*1 ≠ [] →
  module_name_of module_type
    (orchestrator_name_of module_type
       (filter (λ f, is_unit_file f) (tree_files sub).*1)) ∈
    candidates (as_files (Generator.generate_orchestrators "./" tree).1) types.
Proof.
  intros Htype Hslash Hfind Hpy.
  unfold candidates. apply list_elem_of_bind. exists module_type.
  split; [|done].
  rewrite as_files_entry, generate_orchestrators_tree.
  destruct tree as [files dirs]. rewrite generate_walk_unfold.
  unfold entry_node. cbn [fst tree_dirs tree_files] in *.
  rewrite (list_find_walk
             (λ d, (generate_walk (path_join "./" d.1) d.2).1)), Hfind.
  cbn [fmap option_fmap option_map fst snd].
  rewrite path_join_working_directory by done.
  destruct sub as [sfiles sdirs]. rewrite generate_walk_unfold.
  cbn [fst tree_dirs tree_files] in *.
  apply list_elem_of_fmap. eexists. split; [done|].
  apply list_elem_of_filter. split.
  { destruct (orchestrator_name_marks module_type
                (filter (λ f, is_unit_file f) sfiles.*1)) as [Hends Hmark].
    unfold is_orchestrator. by rewrite Hends, Hmark. }
  rewrite sorted_Permutation, <-list_fmap_compose.
  pose proof (generate_in_lists_orchestrator ("./" +:+ module_type)
                sdirs.*1 sfiles Hpy) as Hin.
  rewrite basename_working_directory in Hin by done.
  apply elem_of_app in Hin as [Hin|Hin]; apply elem_of_app; [by left|right].
  apply list_elem_of_fmap in Hin as (d & Hname & Hd).
  apply list_elem_of_fmap. by exists d.
Qed.

End GeneratorFacts.

(** * The properties on the small installation *)

#[local] Existing Instance Demo.platform.
#[local] Existing Instance Demo.host.

(** ** The string operations and the sort, on sample inputs *)

Example endswith_samples :
  Str.endswith "a.py" ".py" = true ∧ Str.endswith ".py" ".py" = true ∧
  Str.endswith "py" ".py" = false ∧ Str.endswith "a.pyc" ".py" = false.
Proof. by vm_compute. Qed.

Example contains_samples :
  Str.contains "orchestrate" "0_orchestrate_2.py" = true ∧
  Str.contains "orchestrate" "orchestrat.py" = false ∧
  Str.contains "" "" = true.
Proof. by vm_compute. Qed.

Example drop_last_samples :
  Str.drop_last 3 "0_orchestrate_2.py" = "0_orchestrate_2" ∧
  Str.drop_last 3 "ab" = "".
Proof. by vm_compute. Qed.

Example sorted_sample :
  sorted ["b"; "a"; "B"; "10"; "9"; "a"] = ["10"; "9"; "B"; "a"; "a"; "b"].
Proof. by vm_compute. Qed.

Example candidates_sample :
  candidates Demo.files ["models"; "controllers"; "services"] =
    ["models.a_orchestrate"; "models.b_orchestrate";
     "models.broken_orchestrate"; "services.0_orchestrate_2"].
Proof. by vm_compute. Qed.

(** ** The registry *)

(** C1: a call of [register_module] with a name that is present raises
    nothing.  Registering "b" again on the registry of [a], [b], [c]
    returns normally, with the framework as it was. *)
Lemma register_duplicate_returns_normally :
  (register_module "b" (Demo.failing "b") Demo.app_abc Demo.machine).2 =
    Ok Demo.app_abc ∧
  ¬ ∃ e, (register_module "b" (Demo.failing "b") Demo.app_abc Demo.machine).2 =
           Raised e.
Proof. split; [reflexivity|]. intros [e He]. vm_compute in He. discriminate. Qed.

Lemma register_module_at_most_once_witness :
  NoDup (modules Demo.app0).*1 ∧
  ∃ self logged,
    register_all [("a", Demo.appender "a"); ("b", Demo.appender "b");
                  ("a", Demo.failing "a")] Demo.app0 Demo.machine =
      (log_more logged Demo.machine, Ok self) ∧
    NoDup (modules self).*1 ∧
    accepted_count "a" logged ≤ 1 ∧
    dict_get "a" (modules self) = Some (Demo.appender "a") ∧
    ∃ self',
      register_module "a" (Demo.failing "a") self Demo.machine =
        (log_more [duplicate_report "a"] Demo.machine, Ok self') ∧
      length (modules self') = length (modules self) ∧
      dict_get "a" (modules self') = Some (Demo.appender "a").
Proof.
  split; [apply NoDup_nil_2|].
  destruct (register_module_at_most_once Demo.app0
              [("a", Demo.appender "a"); ("b", Demo.appender "b");
               ("a", Demo.failing "a")] Demo.machine (NoDup_nil_2))
    as (self & logged & Hrun & Hnd & Hcount & Hget & Hdup).
  exists self, logged. split_and!; [exact Hrun|exact Hnd|apply Hcount| |].
  - rewrite Hget. reflexivity.
  - destruct (Hdup "a" (Demo.failing "a") Demo.machine)
      as (self' & Hreg & Hkept & Hsize & _).
    + apply dict_get_is_Some. rewrite Hget. by eexists.
    + exists self'. split_and!; [exact Hreg|exact Hsize|].
      rewrite Hkept, Hget. reflexivity.
Defined.


(** ** Dispatch *)

(** Units [a], [b], [c], each appending its name to the shared log. *)
Example run_all_abc :
  run_all Demo.app_abc Demo.machine =
    (Demo.machine_at ["a"; "b"; "c"] [Call "a"; Call "b"; Call "c"], Ok ()).
Proof. by vm_compute. Qed.

(** C3: [run_module] on a name that is not registered raises nothing.
    Asked for "d" on the registry of [a], [b], [c], it logs the error
    record and returns normally. *)
Lemma run_module_unknown_returns_normally :
  run_module Demo.app_abc "d" ["x"] Demo.machine =
    (log_more [Log ERROR "Module d not found!"] Demo.machine, Ok ()) ∧
  ¬ ∃ e, (run_module Demo.app_abc "d" ["x"] Demo.machine).2 = Raised e.
Proof. split; [reflexivity|]. intros [e He]. vm_compute in He. discriminate. Qed.

Lemma run_module_by_name_witness :
  ("d" ∉ (modules Demo.app_abc).*1) ∧
  is_Some (run (Demo.appender "d")) ∧
  run_module Demo.app_abc "d" ["x"] Demo.machine =
    (log_more [not_found_report "d"] Demo.machine, Ok ()) ∧
  ∃ self1 m1,
    register_module "d" (Demo.appender "d") Demo.app_abc Demo.machine =
      (m1, Ok self1) ∧
    run_module self1 "d" ["x"] Demo.machine =
      (Demo.machine_at ["d"; "x"] [Call "d"], Ok ()).
Proof.
  assert ("d" ∉ (modules Demo.app_abc).*1) as Hfresh
    by (apply (bool_decide_unpack _); vm_compute; exact I).
  destruct (run_module_by_name Demo.app_abc "d" ["x"] Demo.machine)
    as [Hmiss Hhit].
  split_and!; [exact Hfresh|by eexists|exact (Hmiss Hfresh)|].
  destruct (Hhit (Demo.appender "d") _ Demo.machine Hfresh eq_refl)
    as (self1 & m1 & Hreg & _ & Hrun).
  exists self1, m1. split; [exact Hreg|exact Hrun].
Defined.

(** C2: a failing unit ends the loop.  With [a], a failing [b] and [c]
    registered, [a] and [b] are called, the exception of [b] leaves the
    loop, nothing is logged and [c] is never called. *)
Lemma run_all_stops_at_the_failing_unit :
  run_all Demo.app_a_fail_c Demo.machine =
    (Demo.machine_at ["a"] [Call "a"; Call "b"], Raised (Exception "boom")) ∧
  ("c" ∈ (modules Demo.app_a_fail_c).*1) ∧
  (Call "c" ∉ events (run_all Demo.app_a_fail_c Demo.machine).1) ∧
  ¬ ∃ lvl msg, Log lvl msg ∈ events (run_all Demo.app_a_fail_c Demo.machine).1.
Proof.
  split_and!.
  - reflexivity.
  - apply (bool_decide_unpack _). vm_compute. exact I.
  - apply (bool_decide_unpack _). vm_compute. exact I.
  - intros (lvl & msg & Hin). vm_compute in Hin.
    repeat (apply elem_of_cons in Hin as [Hin|Hin]; [discriminate|]).
    by apply elem_of_nil in Hin.
Qed.

Lemma run_all_in_order_until_failure_witness :
  NoDup (modules Demo.app_a_fail_c).*1 ∧
  (∃ invoked w,
     (run_all Demo.app_a_fail_c Demo.machine).1 =
       Demo.machine_at w ([] ++ (Call <$> invoked)) ∧
     invoked `prefix_of` ["a"; "b"; "c"] ∧
     NoDup invoked) ∧
  run_names Demo.app_a_fail_c ["a"] Demo.machine =
    (Demo.machine_at ["a"] [Call "a"], Ok ()) ∧
  run_all Demo.app_a_fail_c Demo.machine =
    (Demo.machine_at ["a"] [Call "a"; Call "b"], Raised (Exception "boom")) ∧
  (run_all Demo.app_abc Demo.machine).2 = Ok ().
Proof.
  assert (NoDup (modules Demo.app_a_fail_c).*1) as Hnodup
    by (apply (bool_decide_unpack _); vm_compute; exact I).
  assert (NoDup (modules Demo.app_abc).*1) as Hnodup'
    by (apply (bool_decide_unpack _); vm_compute; exact I).
  destruct (run_all_in_order_until_failure Demo.app_a_fail_c Demo.machine Hnodup)
    as ((invoked & w & Hm & Hpre & Hnd & _) & _ & Hfail).
  destruct (run_all_in_order_until_failure Demo.app_abc Demo.machine Hnodup')
    as (_ & Hall & _).
  split_and!.
  - exact Hnodup.
  - exists invoked, w. split_and!; [exact Hm|exact Hpre|exact Hnd].
  - reflexivity.
  - apply (Hfail ["a"] "b" ["c"] (Demo.machine_at ["a"] [Call "a"]));
      reflexivity.
  - apply Hall. intros name m1 Hin.
    repeat (apply elem_of_cons in Hin as [->|Hin]; [reflexivity|]).
    by apply elem_of_nil in Hin.
Defined.

(** ** Discovery *)

Lemma demo_files_listable (t : string) :
  Demo.files ("./" +:+ t) ≠ NotDir.
Proof. unfold Demo.files. repeat case_decide; discriminate. Qed.

Lemma demo_files_distinct (t : string) (entries : list string) :
  Demo.files ("./" +:+ t) = Dir entries → NoDup entries.
Proof.
  unfold Demo.files. repeat case_decide; intros [= <-];
    apply (bool_decide_unpack _); vm_compute; exact I.
Qed.




Lemma discovery_skips_absent_directory_witness :
  fs Demo.machine ("./" +:+ "controllers") = Absent ∧
  @scan_module_type Demo.platform Demo.host "controllers" Demo.app0
    Demo.machine = (Demo.machine, Ok Demo.app0) ∧
  @auto_discover_and_register Demo.platform Demo.host Demo.app0 Demo.machine =
    for_each ["models"; "services"; "utils"; "security"]
             scan_module_type Demo.app0 Demo.machine.
Proof.
  destruct (@discovery_skips_absent_directory Demo.platform Demo.host
              Demo.app0 Demo.machine "controllers" eq_refl) as [Hskip Hrest].
  split_and!; [reflexivity|exact Hskip|].
  apply (Hrest ["models"] ["services"; "utils"; "security"]). reflexivity.
Defined.

(** ** Startup *)

(** The trace of [main "init"] on the small installation. *)
Example main_init_trace :
  (main "init" "demo" Demo.machine).2 = Ok () ∧
  world (main "init" "demo" Demo.machine).1 =
    ["models.a_orchestrate"; "models.b_orchestrate";
     "services.0_orchestrate_2"] ∧
  events (main "init" "demo" Demo.machine).1 =
    [Log INFO "Initializing project: demo";
     Log INFO "Generating orchestrators for: ./";
     Log INFO "Setting up logger...";
     Log INFO "Database connected successfully.";
     Log INFO "Framework initialized successfully.";
     Log INFO "Module models.a_orchestrate registered successfully.";
     Log INFO "Module models.b_orchestrate registered successfully.";
     Log ERROR "Failed to load models.broken_orchestrate: No module named 'models.broken_orchestrate'";
     Log INFO "Module services.0_orchestrate_2 registered successfully.";
     Log INFO "Starting server..."; ThreadStart Server;
     Log INFO "Starting client..."; ThreadStart Client;
     Call "models.a_orchestrate"; Call "models.b_orchestrate";
     Call "services.0_orchestrate_2"].
Proof. by vm_compute. Qed.



(** ** The channel *)

(** The scenario of one message: the client puts it, the server takes it
    and puts the acknowledgment, the client takes the acknowledgment, and
    the queue is empty again. *)
Example one_round_trip :
  let s := sys_run [Client; Server; Server; Server; Client; Client; Client]
                   sys_init in
  trace s =
    [Log INFO "Client sending: Client message 0";
     QPut Client "Client message 0";
     QGet Server "Client message 0";
     Log INFO "Server received: Client message 0";
     QPut Server "Server acknowledged: Client message 0";
     QGet Client "Server acknowledged: Client message 0";
     Log INFO "Client received: Server acknowledged: Client message 0"] ∧
  queue s = [] ∧ client s = ClSend 1 ∧ server s = SvPoll.
Proof. by vm_compute. Qed.

(** The two threads taking turns: the client reaches the end of its
    loop. *)
Example client_finishes_when_threads_alternate :
  client (sys_run (mjoin (replicate 20 [Client; Server])) sys_init) = ClDone.
Proof. by vm_compute. Qed.

(** The client alone takes back its own messages. *)
Example run_client_alone :
  run_client (λ _ q, q) [] =
    ([],
     [Log INFO "Client sending: Client message 0";
      QPut Client "Client message 0"; QGet Client "Client message 0";
      Log INFO "Client received: Client message 0";
      Log INFO "Client sending: Client message 1";
      QPut Client "Client message 1"; QGet Client "Client message 1";
      Log INFO "Client received: Client message 1";
      Log INFO "Client sending: Client message 2";
      QPut Client "Client message 2"; QGet Client "Client message 2";
      Log INFO "Client received: Client message 2";
      Log INFO "Client sending: Client message 3";
      QPut Client "Client message 3"; QGet Client "Client message 3";
      Log INFO "Client received: Client message 3";
      Log INFO "Client sending: Client message 4";
      QPut Client "Client message 4"; QGet Client "Client message 4";
      Log INFO "Client received: Client message 4"]).
Proof. by vm_compute. Qed.



(** * The further properties on the small installation *)

Lemma register_then_lookup_witness :
  ("d" ∉ (modules Demo.app_abc).*1) ∧
  ∃ self',
    register_module "d" (Demo.appender "d") Demo.app_abc Demo.machine =
      (log_more [registered_report "d"] Demo.machine, Ok self') ∧
    dict_get "d" (modules self') = Some (Demo.appender "d") ∧
    (modules self').*1 = ["a"; "b"; "c"; "d"] ∧
    dict_get "a" (modules self') = Some (Demo.appender "a").
Proof.
  assert ("d" ∉ (modules Demo.app_abc).*1) as Hfresh
    by (apply (bool_decide_unpack _); vm_compute; exact I).
  split; [exact Hfresh|].
  destruct (register_then_lookup "d" (Demo.appender "d") Demo.app_abc
              Demo.machine Hfresh)
    as (self' & Hreg & _ & Hget & Hkeys & _ & Hother).
  exists self'. split_and!; [exact Hreg|exact Hget|exact Hkeys|].
  rewrite (Hother "a"); [reflexivity|discriminate].
Defined.

Lemma run_module_without_run_witness :
  dict_get "s" (modules Sample.app_a_silent) = Some (Sample.silent "pkg.s") ∧
  run (Sample.silent "pkg.s") = None ∧
  run_module Sample.app_a_silent "s" [] Demo.machine =
    (Demo.machine,
     Raised (Exception "module 'pkg.s' has no attribute 'run'")).
Proof.
  split_and!; [reflexivity..|].
  exact (run_module_without_run Sample.app_a_silent "s" [] Demo.machine
           (Sample.silent "pkg.s") eq_refl eq_refl).
Defined.

Lemma scan_ignores_other_files_witness :
  fs Demo.machine ("./" +:+ "models") =
    Dir ["b_orchestrate.py"; "notes.txt"; "a_orchestrate.py";
         "broken_orchestrate.py"; "helper.py"; "orchestrate.pyc"] ∧
  fs Sample.machine_with_other_files ("./" +:+ "models") =
    Dir ["zz.txt"; "broken_orchestrate.py"; "b_orchestrate.py";
         "a_orchestrate.py"; "unit.py"] ∧
  (scan_module_type "models" Demo.app0 Demo.machine).2 =
    (scan_module_type "models" Demo.app0 Sample.machine_with_other_files).2 ∧
  events (scan_module_type "models" Demo.app0 Demo.machine).1 =
    events (scan_module_type "models" Demo.app0
              Sample.machine_with_other_files).1.
Proof.
  assert (filter is_orchestrator
            ["b_orchestrate.py"; "notes.txt"; "a_orchestrate.py";
             "broken_orchestrate.py"; "helper.py"; "orchestrate.pyc"] ≡ₚ
          filter is_orchestrator
            ["zz.txt"; "broken_orchestrate.py"; "b_orchestrate.py";
             "a_orchestrate.py"; "unit.py"]) as Hperm
    by (apply (bool_decide_unpack _); vm_compute; exact I).
  destruct (scan_ignores_other_files "models" Demo.app0 Demo.machine
              Sample.machine_with_other_files _ _ eq_refl eq_refl Hperm
              eq_refl eq_refl) as (Hres & _ & Hevents).
  split_and!; [reflexivity|reflexivity|exact Hres|exact Hevents].
Defined.

Lemma discovery_stops_at_unlistable_path_witness :
  module_types Demo.app0 = ["models"; "controllers"] ++ "services" ::
                           ["utils"; "security"] ∧
  fs Sample.machine_with_plain_file ("./" +:+ "services") = NotDir ∧
  ∃ logged scanned,
    for_each ["models"; "controllers"] scan_module_type Demo.app0
             Sample.machine_with_plain_file =
      (log_more logged Sample.machine_with_plain_file, Ok scanned) ∧
    auto_discover_and_register Demo.app0 Sample.machine_with_plain_file =
      (log_more logged Sample.machine_with_plain_file,
       Raised (Exception "[Errno 20] Not a directory: './services'")).
Proof.
  split_and!; [reflexivity..|].
  apply (discovery_stops_at_unlistable_path Demo.app0
           Sample.machine_with_plain_file ["models"; "controllers"]
           "services" ["utils"; "security"] eq_refl eq_refl).
  intros t Ht.
  repeat (apply elem_of_cons in Ht as [->|Ht]; [discriminate|]).
  by apply elem_of_nil in Ht.
Defined.

Lemma discovery_twice_changes_nothing_witness :
  ∃ m1 app logged,
    auto_discover_and_register (new_framework Demo.libs) Demo.machine =
      (m1, Ok app) ∧
    auto_discover_and_register app m1 = (log_more logged m1, Ok app) ∧
    length logged = 4 ∧
    Forall (λ ev, is_error ev) logged.
Proof.
  destruct (auto_discover_and_register (new_framework Demo.libs) Demo.machine)
    as [m1 [app|e]] eqn:Hrun; [|by vm_compute in Hrun].
  destruct (discovery_twice_changes_nothing Demo.libs Demo.machine m1 app
              (λ t _, demo_files_listable t) demo_files_distinct Hrun)
    as (logged & Hagain & Herrors & Hlen).
  exists m1, app, logged. split_and!; [reflexivity|exact Hagain| |exact Herrors].
  rewrite Hlen. reflexivity.
Defined.

Lemma candidate_names_are_distinct_witness :
  NoDup (candidates Demo.files (module_types (new_framework Demo.libs))) ∧
  duplicate_report "models.a_orchestrate" ∉
    events (auto_discover_and_register (new_framework Demo.libs)
              Demo.machine).1.
Proof.
  destruct (candidate_names_are_distinct Demo.libs Demo.files []
              demo_files_distinct (λ t _, demo_files_listable t))
    as [Hnodup Hnone].
  split; [exact Hnodup|exact (Hnone "models.a_orchestrate")].
Defined.

Lemma titanoboa_stops_without_database_witness :
  @sqlite3_connect Demo.platform Sample.host_without_database "app.db" =
    inr "unable to open database file" ∧
  @titanoboa Demo.platform Sample.host_without_database "demo" Demo.machine =
    (Demo.machine_at []
       ([] ++ [Log INFO ("Initializing project: " +:+ "demo")] ++
        (uncurry Log <$> [(INFO, "Generating orchestrators for: ./")]) ++
        [Log INFO "Setting up logger...";
         Log ERROR ("Error connecting to the database: " +:+
                    "unable to open database file")]),
     Raised (SystemExit 1)).
Proof.
  split; [reflexivity|].
  exact (@titanoboa_stops_without_database Demo.platform
           Sample.host_without_database "demo" Demo.machine
           "unable to open database file" Demo.files
           [(INFO, "Generating orchestrators for: ./")] eq_refl eq_refl).
Defined.

Lemma titanoboa_stops_at_unlistable_path_witness :
  Sample.files_with_plain_file ("./" +:+ "services") = NotDir ∧
  ∃ logged,
    @titanoboa Demo.platform Sample.host_with_plain_file "demo"
      Sample.machine_with_plain_file =
      ({| fs := Sample.files_with_plain_file; world := [];
          events := [] ++ logged |},
       Raised (Exception "[Errno 20] Not a directory: './services'")) ∧
    Forall (λ ev, ∃ lvl msg, ev = Log lvl msg) logged.
Proof.
  split; [reflexivity|].
  apply (@titanoboa_stops_at_unlistable_path Demo.platform
           Sample.host_with_plain_file "demo" Sample.machine_with_plain_file
           () Sample.files_with_plain_file [] ["models"; "controllers"]
           "services" ["utils"; "security"] eq_refl eq_refl eq_refl eq_refl).
  intros t Ht.
  repeat (apply elem_of_cons in Ht as [->|Ht]; [discriminate|]).
  by apply elem_of_nil in Ht.
Defined.

Lemma queue_never_exceeds_message_count_witness :
  let s := sys_run (mjoin (replicate 6 [Client; Server])) sys_init in
  reachable s ∧
  length (queue s) + length (held (server s)) +
    length (got_by Client (trace s)) = client_sent (client s) ∧
  length (queue s) ≤ 5.
Proof.
  intros s.
  assert (reachable s) as Hreach by apply reachable_run, rtc_refl.
  destruct (queue_never_exceeds_message_count s Hreach) as [Hcons Hbound].
  split_and!; [exact Hreach|exact Hcons|exact Hbound].
Defined.

Lemma entries_are_wrapped_messages_witness :
  let s := sys_run (mjoin (replicate 6 [Client; Server])) sys_init in
  reachable s ∧
  Forall wrapped_message (queue s) ∧
  Forall wrapped_message (got_by Client (trace s)).
Proof.
  intros s.
  assert (reachable s) as Hreach by apply reachable_run, rtc_refl.
  destruct (entries_are_wrapped_messages s Hreach) as (Hq & _ & Hgot).
  split_and!; [exact Hreach|exact Hq|exact Hgot].
Defined.

Lemma run_client_alone_takes_oldest_witness :
  (run_client (λ _ q, q) ["old"]).1 = ["Client message 4"] ∧
  got_by Client (run_client (λ _ q, q) ["old"]).2 =
    ["old"; "Client message 0"; "Client message 1"; "Client message 2";
     "Client message 3"] ∧
  got_by Client (run_client (λ _ q, q) []).2 =
    put_by Client (run_client (λ _ q, q) []).2.
Proof.
  destruct (run_client_alone_takes_oldest ["old"]) as (Hq & Hgot & _).
  destruct (run_client_alone_takes_oldest []) as (_ & _ & Hown).
  split_and!; [rewrite Hq; reflexivity|rewrite Hgot; reflexivity|].
  exact (Hown eq_refl).
Defined.

Lemma generated_file_is_a_candidate_witness :
  Str.endswith "models_orchestrate_1.py" ".py" = true ∧
  is_orchestrator "models_orchestrate_1.py" = true ∧
  Generator.is_unit_file "models_orchestrate_1.py" = false ∧
  Generator.is_unit_file "user.py" = negb (is_orchestrator "user.py").
Proof.
  destruct (generated_file_is_a_candidate "models" ["user.py"])
    as (Hcandidate & Hunit & _ & Heither).
  split_and!; [reflexivity|exact Hcandidate|exact Hunit|].
  exact (Heither "user.py" eq_refl).
Defined.

Lemma generate_in_turns_on_underscore_witness :
  Generator.generate_in "./models" [] (Generator.tree_files Sample.models_folder) =
    ([("user.py", "class User: pass"); ("notes.txt", "");
      ("models_orchestrate_1.py", Generator.text_header "models")],
     [Log ERROR "Failed to create orchestrator: list index out of range"]) ∧
  ∃ text,
    Generator.generate_in "./01_io" [] (Generator.tree_files Sample.io_folder) =
      ([("read.py", ""); ("write.py", ""); ("01_orchestrate_2.py", text)],
       [Log INFO "Orchestrator 01_orchestrate_2.py generated successfully."]).
Proof.
  split.
  - destruct (generate_in_turns_on_underscore "./models" []
                (Generator.tree_files Sample.models_folder))
      as [Hwithout _]; [by vm_compute|apply not_elem_of_nil|].
    destruct (Hwithout eq_refl) as [_ Hgen]. exact Hgen.
  - destruct (generate_in_turns_on_underscore "./01_io" []
                (Generator.tree_files Sample.io_folder))
      as [_ Hwith]; [by vm_compute|apply not_elem_of_nil|].
    destruct (Hwith eq_refl) as (function_name & _ & Hgen).
    eexists. exact Hgen.
Defined.

Lemma generate_in_spares_unit_files_witness :
  Generator.is_unit_file "user.py" = true ∧
  ("user.py", "class User: pass") ∈
    (Generator.generate_in "./models" []
       (Generator.tree_files Sample.models_folder)).1.
Proof.
  split; [reflexivity|].
  destruct (generate_in_spares_unit_files "./models" []
              (Generator.tree_files Sample.models_folder))
    as (_ & _ & _ & _ & Hkept).
  apply Hkept; [reflexivity|]. apply elem_of_cons. by left.
Defined.

Lemma generated_orchestrator_is_discovered_witness :
  "models.models_orchestrate_1" ∈
    candidates
      (Generator.as_files
         (Generator.generate_orchestrators "./" Sample.tree).1)
      ["models"; "controllers"; "services"; "utils"; "security"].
Proof.
  apply (generated_orchestrator_is_discovered Sample.tree
           ["models"; "controllers"; "services"; "utils"; "security"]
           "models" Sample.models_folder 0);
    [apply elem_of_cons; by left|reflexivity|reflexivity|by vm_compute].
Defined.
